(** * BrowserService (src/browser/service.py): a shallow embedding

    The service drives a Selenium Chrome driver.  Every method is embedded
    as a computation over an explicit machine state: the fields of the
    [BrowserService] instance together with the part of the outside world
    the methods can observe (a clock, the log of calls issued to the
    driver, the set of browser processes that are alive).

    The browser itself is not part of the repository.  It is represented by
    an environment [Env] that answers every driver call, as a function of
    the calls issued so far, with the time the call took and either a value
    or an exception.  All theorems quantify over the environment. *)

From Stdlib Require Import QArith Lqa Ascii String.
From Stdlib Require Import Floats.SpecFloat.
From stdpp Require Import base list gmap strings pretty.

Open Scope string_scope.
Open Scope list_scope.
Open Scope Q_scope.

(** ** Python strings *)

Module PyStr.

(** [sub in s] *)
Fixpoint contains (sub s : string) : bool :=
  String.prefix sub s ||
  match s with
  | EmptyString => false
  | String _ s' => contains sub s'
  end.

(** [s.split(sep)] for a non-empty separator: the pieces between the
    occurrences of [sep], found from left to right without overlap.
    [skip] counts the characters of a matched separator still to drop,
    [cur] is the piece being read. *)
Fixpoint split_aux (sep : string) (skip : nat) (cur s : string) : list string :=
  match s with
  | EmptyString => [cur]
  | String a s' =>
      match skip with
      | S k => split_aux sep k cur s'
      | 0%nat =>
          if String.prefix sep s
          then cur :: split_aux sep (String.length sep - 1)%nat "" s'
          else split_aux sep 0 (cur +:+ String a "") s'
      end
  end.

Definition split (sep s : string) : list string := split_aux sep 0 "" s.

(** [l[-1]] and [l[0]] on the result of a split, which is never empty. *)
Definition item_last (l : list string) : string := List.last l "".
Definition item_first (l : list string) : string := List.hd "" l.

End PyStr.

(** ** Python floats

    A Python [float] is an IEEE 754 binary64 number.  Its arithmetic is
    that of the Standard Library's specification of binary floating point
    (round to nearest, ties to even), at precision 53 and maximal exponent
    1024. *)

Definition float : Type := spec_float.

Module PyFloat.

Definition prec : Z := 53.
Definition emax : Z := 1024.

(** [float(z)] *)
Definition of_int (z : Z) : float := binary_normalize prec emax z 0 false.

Definition zero : float := S754_zero false.

(** [a - b], [a * b] and [a / b] *)
Definition sub (a b : float) : float := SFsub prec emax a b.
Definition mul (a b : float) : float := SFmul prec emax a b.
Definition div (a b : float) : float := SFdiv prec emax a b.

(** [a < b] and [a <= b]; false when either is NaN. *)
Definition ltb (a b : float) : bool := SFltb a b.

(** [max(a, 0)]: Python keeps [a] unless [0 > a]. *)
Definition max_0 (a : float) : float := if ltb a zero then zero else a.



(** The number a float stands for; 0 for what is not finite. *)
Definition to_Q (a : float) : Q :=
  match a with
  | S754_finite s m e => inject_Z (if s then Z.neg m else Z.pos m) * Qpower 2 e
  | _ => 0
  end.

(** The float nearest to a rational number of small numerator and
    denominator: the quotient of the two as floats. *)
Definition nearest (q : Q) : float :=
  div (of_int (Qnum q)) (of_int (Z.pos (Qden q))).

End PyFloat.

(** ** Exceptions and results

    The service raises plain [Exception(message)] and inspects the
    exceptions it catches through [str(e)] only, so an exception is
    represented by its message. *)

Inductive Exn : Type := Exception (message : string).

Definition str (e : Exn) : string := let 'Exception m := e in m.

Inductive result (A : Type) : Type :=
| Ok (a : A)
| Raise (e : Exn).
Arguments Ok {A} a.
Arguments Raise {A} e.

(** ** Data *)

(** A [webdriver.Chrome] instance, named by the rank of its launch. *)
Definition Conn := nat.
(** A [WebElement] handle. *)
Definition Element := nat.
(** An entry of [content.items]; produced by [src.dom.service], carried
    through unchanged. *)
Definition Item := string.

Inductive By : Type := By_ID | By_XPATH.

(** [src.browser.views.BrowserState], with the fields the service fills. *)
Record BrowserState : Type := {
  items : list Item;
  selector_map : gmap Z string;
  url : string;
  title : string
}.

(** The value of [DomService(driver).get_clickable_elements()]. *)
Record DomContent : Type := {
  content_items : list Item;
  content_selector_map : gmap Z string
}.

(** The scripts handed to [driver.execute_script]. *)
Definition JS_CLICK : string := "arguments[0].click();".
Definition JS_CLEAR_VALUE : string := "arguments[0].value = '';".

(** The third script is a triple-quoted literal: it keeps the line breaks
    and the tabs of its indentation. *)
Definition LF : string := String "010"%char "".

Fixpoint tabs (n : nat) : string :=
  match n with
  | O => ""
  | S k => String "009"%char (tabs k)
  end.

Definition JS_SCROLL_AND_CLICK : string :=
  LF +:+ tabs 5
  +:+ "arguments[0].scrollIntoView({behavior: 'instant', block: 'center'});"
  +:+ LF +:+ tabs 5 +:+ "arguments[0].click();"
  +:+ LF +:+ tabs 4.

(** ** Calls to the browser connection *)

Inductive Call : Type :=
| webdriver_Chrome (headless : bool)
    (* webdriver.Chrome(service=Service(ChromeDriverManager().install()), options=...) *)
| driver_execute_cdp_cmd (d : Conn)
    (* driver.execute_cdp_cmd('Page.addScriptToEvaluateOnNewDocument', ...) *)
| driver_quit (d : Conn)
| wait_until_ready (d : Conn) (timeout : Q)
    (* WebDriverWait(d, timeout).until(readyState == 'complete') *)
| wait_until_clickable (d : Conn) (timeout : Q) (xpath message : string)
    (* WebDriverWait(d, timeout).until(EC.element_to_be_clickable((By.XPATH, xpath)), message) *)
| driver_execute_script (d : Conn) (script : string) (element : Element)
| driver_find_element (d : Conn) (by_ : By) (value : string)
| element_is_displayed (element : Element)
| element_is_enabled (element : Element)
| actions_move_to_element (d : Conn) (element : Element)
    (* ActionChains(d).move_to_element(element).perform() *)
| element_send_keys (element : Element) (text : string)
| driver_get (d : Conn) (address : string)
| driver_back (d : Conn)
| driver_refresh (d : Conn)
| dom_get_clickable_elements (d : Conn)
| driver_current_url (d : Conn)
| driver_title (d : Conn).

(** The type of the value a call returns when it does not raise.  A launch
    returns the new driver; its name is allocated by [launch] below. *)
Definition Resp (c : Call) : Type :=
  match c with
  | wait_until_clickable _ _ _ _ | driver_find_element _ _ _ => Element
  | element_is_displayed _ | element_is_enabled _ => bool
  | dom_get_clickable_elements _ => DomContent
  | driver_current_url _ | driver_title _ => string
  | _ => unit
  end.

(** What the service writes with [print]. *)
Inductive Line : Type :=
| page_loaded_line (elapsed remaining : float).
    (* f'Page loaded in {elapsed:.2f} seconds, waiting for additional {remaining:.2f} seconds' *)

(** Everything the service does to the outside world, in order. *)
Inductive Event : Type :=
| Driver (c : Call)
| Sleep (secs : float)
| Print (line : Line)
| Unraisable (e : Exn).
    (* the interpreter's report of an exception that left a finalizer *)

(** A duration: a non-negative rational number of seconds. *)
Record Dur : Type := { dur_num : N; dur_den : positive }.

Definition seconds (d : Dur) : Q := Z.of_N (dur_num d) # dur_den d.

Definition instant : Dur := {| dur_num := 0; dur_den := 1 |}.

(** The outside world.  [reply h c] is what call [c] does after the
    events [h]: how long it blocks and how it ends.  [lag h] is the time by
    which a [time.sleep] overshoots, or that a [print] takes.  [clock t] is
    what [time.time()] reads at time [t]. *)
Record Env : Type := {
  reply : list Event -> forall c : Call, Dur * result (Resp c);
  lag : list Event -> Dur;
  clock : Q -> float
}.

(** ** Machine state *)

Record Machine : Type := {
  (* the BrowserService instance *)
  headless : bool;
  driver : option Conn;
  current_state : option BrowserState;
  (* the world *)
  now : Q;
  trace : list Event;
  live : gset Conn;
  launched : nat
}.

(** [BrowserService(headless)], in a world at time [t] where nothing has
    happened yet.  [__init__] also sets [MINIMUM_WAIT_TIME] and
    [MAXIMUM_WAIT_TIME], which no method reassigns; they are the
    constants below. *)
Definition __init__ (headless_ : bool) (t : Q) : Machine :=
  {| headless := headless_; driver := None; current_state := None;
     now := t; trace := []; live := ∅; launched := 0%nat |}.

(** [0.5] *)
Definition MINIMUM_WAIT_TIME : float := S754_finite false 4503599627370496 (-53).
Definition MAXIMUM_WAIT_TIME : Q := 5.

Definition set_driver (d : option Conn) (σ : Machine) : Machine :=
  {| headless := headless σ; driver := d; current_state := current_state σ;
     now := now σ; trace := trace σ; live := live σ; launched := launched σ |}.

Definition set_current_state (s : BrowserState) (σ : Machine) : Machine :=
  {| headless := headless σ; driver := driver σ; current_state := Some s;
     now := now σ; trace := trace σ; live := live σ; launched := launched σ |}.

Definition set_live (l : gset Conn) (σ : Machine) : Machine :=
  {| headless := headless σ; driver := driver σ; current_state := current_state σ;
     now := now σ; trace := trace σ; live := l; launched := launched σ |}.

Definition set_launched (n : nat) (σ : Machine) : Machine :=
  {| headless := headless σ; driver := driver σ; current_state := current_state σ;
     now := now σ; trace := trace σ; live := live σ; launched := n |}.

(** Record event [e], which took [dt] seconds. *)
Definition happen (e : Event) (dt : Q) (σ : Machine) : Machine :=
  {| headless := headless σ; driver := driver σ; current_state := current_state σ;
     now := now σ + dt; trace := trace σ ++ [e]; live := live σ;
     launched := launched σ |}.

(** ** The monad of methods: state and exceptions *)

Definition M (A : Type) : Type := Machine -> result A * Machine.

Definition ret {A} (a : A) : M A := fun σ => (Ok a, σ).

Definition raise {A} (e : Exn) : M A := fun σ => (Raise e, σ).

Definition bind {A B} (m : M A) (k : A -> M B) : M B :=
  fun σ =>
    match m σ with
    | (Ok a, σ') => k a σ'
    | (Raise e, σ') => (Raise e, σ')
    end.

(** [try: m  except Exception as e: h e] *)
Definition try_except {A} (m : M A) (h : Exn -> M A) : M A :=
  fun σ =>
    match m σ with
    | (Ok a, σ') => (Ok a, σ')
    | (Raise e, σ') => h e σ'
    end.

Notation "x <- m ;; k" := (bind m (fun x => k))
  (at level 100, m at level 99, k at level 200, right associativity).
Notation "m ;; k" := (bind m (fun _ => k))
  (at level 100, k at level 200, right associativity).

(** A block that may leave the method through [return]. *)
Inductive Flow : Type := Returned | Fell_through.

(** Run [m]; unless it returned from the method, go on with [k]. *)
Definition or_else (m : M Flow) (k : M unit) : M unit :=
  f <- m ;; match f with Returned => ret tt | Fell_through => k end.

(** What [time.sleep(secs)] refuses.  CPython turns the seconds into a
    count of nanoseconds that must fit 64 bits, and refuses NaN on the way;
    then it refuses a negative length. *)
Definition sleep_error (secs : float) : option Exn :=
  match secs with
  | S754_nan => Some (Exception "Invalid value NaN (not a number)")
  | _ =>
      if negb (PyFloat.ltb (SFabs (PyFloat.mul secs (PyFloat.of_int 1000000000)))
                 (PyFloat.of_int (2 ^ 63)))
      then Some (Exception "timestamp too large to convert to C _PyTime_t")
      else if PyFloat.ltb secs PyFloat.zero
      then Some (Exception "sleep length must be non-negative")
      else None
  end.

(** ** The service *)

Section Service.

Variable env : Env.

(** *** The world's side *)

(** Issue call [c] to the browser and wait for its end. *)
Definition perform (c : Call) : M (Resp c) :=
  fun σ =>
    let '(d, r) := reply env (trace σ) c in
    (r, happen (Driver c) (seconds d) σ).

(** [webdriver.Chrome(...)]: a launch that succeeds starts a browser
    process, named by its rank. *)
Definition launch (headless_ : bool) : M Conn :=
  fun σ =>
    match perform (webdriver_Chrome headless_) σ with
    | (Ok _, σ') =>
        let d := launched σ' in
        (Ok d, set_launched (S d) (set_live ({[d]} ∪ live σ') σ'))
    | (Raise e, σ') => (Raise e, σ')
    end.

(** [d.quit()]: a quit that succeeds ends the browser process. *)
Definition quit (d : Conn) : M unit :=
  fun σ =>
    match perform (driver_quit d) σ with
    | (Ok _, σ') => (Ok tt, set_live (live σ' ∖ {[d]}) σ')
    | (Raise e, σ') => (Raise e, σ')
    end.

(** [time.time()] *)
Definition time_time : M float := fun σ => (Ok (clock env (now σ)), σ).

(** [time.sleep(secs)]: blocks for at least [secs], unless it refuses
    them. *)
Definition time_sleep (secs : float) : M unit :=
  fun σ =>
    match sleep_error secs with
    | Some e => (Raise e, σ)
    | None =>
        (Ok tt,
         happen (Sleep secs) (PyFloat.to_Q secs + seconds (lag env (trace σ))) σ)
    end.

Definition print (line : Line) : M unit :=
  fun σ => (Ok tt, happen (Print line) (seconds (lag env (trace σ))) σ).

(** *** Fields of [self] *)

Definition self_headless : M bool := fun σ => (Ok (headless σ), σ).
Definition self_driver : M (option Conn) := fun σ => (Ok (driver σ), σ).
Definition assign_driver (d : option Conn) : M unit :=
  fun σ => (Ok tt, set_driver d σ).
Definition assign_current_state (s : BrowserState) : M unit :=
  fun σ => (Ok tt, set_current_state s σ).

(** *** Session lifecycle *)

Definition init : M Conn :=
  h <- self_headless ;;
  driver <- launch h ;;
  perform (driver_execute_cdp_cmd driver) ;;
  assign_driver (Some driver) ;;
  ret driver.

Definition _get_driver : M Conn :=
  d <- self_driver ;;
  match d with
  | None =>
      driver <- init ;;
      assign_driver (Some driver) ;;
      ret driver
  | Some driver => ret driver
  end.

(** *** Page-ready synchronisation *)

(** Lines 111-116: the readiness poll and its handler. *)
Definition poll_ready_state (driver : Conn) : M unit :=
  try_except
    (perform (wait_until_ready driver 5) ;; ret tt)
    (fun _ => ret tt).

Definition wait_for_page_load : M unit :=
  driver <- _get_driver ;;
  start_time <- time_time ;;
  poll_ready_state driver ;;
  t <- time_time ;;
  let elapsed := PyFloat.sub t start_time in
  let remaining := PyFloat.max_0 (PyFloat.sub MINIMUM_WAIT_TIME elapsed) in
  print (page_loaded_line elapsed remaining) ;;
  if PyFloat.ltb PyFloat.zero remaining then time_sleep remaining else ret tt.

(** *** State snapshot *)

Definition get_updated_state : M BrowserState :=
  driver <- _get_driver ;;
  content <- perform (dom_get_clickable_elements driver) ;;
  u <- perform (driver_current_url driver) ;;
  t <- perform (driver_title driver) ;;
  let s := {| items := content_items content;
              selector_map := content_selector_map content;
              url := u; title := t |} in
  assign_current_state s ;;
  ret s.

Definition close : M unit :=
  driver <- _get_driver ;;
  quit driver ;;
  assign_driver None.

Definition __del__ : M unit :=
  d <- self_driver ;;
  match d with
  | Some _ => close
  | None => ret tt
  end.

(** The interpreter runs [__del__] when the instance is discarded.  An
    exception that leaves [__del__] is not propagated: Python reports it
    on [sys.stderr] ("Exception ignored in ...") and goes on (language
    reference, 3.3.1, [object.__del__]). *)
Definition discard : M unit :=
  try_except __del__
    (fun e σ => (Ok tt, happen (Unraisable e) (seconds (lag env (trace σ))) σ)).

(** *** Browser actions *)

Definition search_google (query : string) : M unit :=
  driver <- _get_driver ;;
  perform (driver_get driver ("https://www.google.com/search?q=" +:+ query)) ;;
  wait_for_page_load.

Definition go_to_url (address : string) : M unit :=
  driver <- _get_driver ;;
  perform (driver_get driver address) ;;
  wait_for_page_load.

Definition go_back : M unit :=
  driver <- _get_driver ;;
  perform (driver_back driver) ;;
  wait_for_page_load.

Definition refresh : M unit :=
  driver <- _get_driver ;;
  perform (driver_refresh driver) ;;
  wait_for_page_load.

(** *** User actions *)

(** A [WebDriverWait(driver, timeout)] object. *)
Record WebDriverWait : Type := { wait_driver : Conn; wait_timeout : Q }.

(** [wait.until(EC.element_to_be_clickable((By.XPATH, xpath)), message)] *)
Definition until_element_to_be_clickable
    (wait : WebDriverWait) (xpath message : string) : M Element :=
  perform (wait_until_clickable (wait_driver wait) (wait_timeout wait) xpath message).

Definition _webdriver_wait : M WebDriverWait :=
  driver <- _get_driver ;;
  ret {| wait_driver := driver; wait_timeout := 10 |}.

Definition _input_text_by_xpath (xpath text : string) : M unit :=
  driver <- _get_driver ;;
  try_except
    (wait <- _webdriver_wait ;;
     element <- until_element_to_be_clickable wait xpath "" ;;
     perform (actions_move_to_element driver element) ;;
     perform (driver_execute_script driver JS_CLEAR_VALUE element) ;;
     perform (element_send_keys element text) ;;
     wait_for_page_load)
    (fun e =>
       raise (Exception ("Failed to input text into element with xpath: "
                         +:+ xpath +:+ ". Error: " +:+ str e))).

Definition input_text_by_index (index : Z) (text : string) (state : BrowserState)
    : M unit :=
  match selector_map state !! index with
  | None =>
      raise (Exception ("Element index " +:+ pretty index
                        +:+ " not found in selector map"))
  | Some xpath => _input_text_by_xpath xpath text
  end.

Definition _click_element_by_xpath (xpath : string) : M unit :=
  driver <- _get_driver ;;
  wait <- _webdriver_wait ;;
  try_except
    (or_else
       (* first try the direct approach *)
       (try_except
          (element <- until_element_to_be_clickable wait xpath
                        ("Element not clickable: " +:+ xpath) ;;
           perform (driver_execute_script driver JS_CLICK element) ;;
           wait_for_page_load ;;
           ret Returned)
          (fun _ => ret Fell_through))
    (or_else
       (* try with the id if present in the xpath *)
       (try_except
          (if PyStr.contains "id=" xpath then
             let id_value :=
               PyStr.item_first
                 (PyStr.split "]" (PyStr.item_last (PyStr.split "id=" xpath))) in
             element <- perform (driver_find_element driver By_ID id_value) ;;
             displayed <- perform (element_is_displayed element) ;;
             enabled <- (if displayed : bool
                         then perform (element_is_enabled element)
                         else ret false) ;;
             if displayed && enabled then
               perform (driver_execute_script driver JS_CLICK element) ;;
               wait_for_page_load ;;
               ret Returned
             else ret Fell_through
           else ret Fell_through)
          (fun _ => ret Fell_through))
       (* last resort: force the click *)
       (try_except
          (element <- perform (driver_find_element driver By_XPATH xpath) ;;
           perform (driver_execute_script driver JS_SCROLL_AND_CLICK element) ;;
           wait_for_page_load)
          (fun e => raise (Exception ("Failed to click element: " +:+ str e))))))
    (fun e =>
       raise (Exception ("Failed to click element with xpath: " +:+ xpath
                         +:+ ". Error: " +:+ str e))).

(** Modelled from the spec: the decorator [time_execution_sync] of
    [src.utils] is not among the sources.  The spec gives a decorated
    method no behaviour beyond the method's own, so the decorator is
    taken to run the method and hand on its outcome. *)
Definition time_execution_sync {A} (label : string) (method : M A) : M A :=
  method.

Definition click_element_by_index (index : Z) (state : BrowserState) : M unit :=
  time_execution_sync "click"
    match selector_map state !! index with
    | None =>
        raise (Exception ("Element index " +:+ pretty index
                          +:+ " not found in selector map"))
    | Some xpath => _click_element_by_xpath xpath
    end.

End Service.

(** ** Concrete worlds

    Environments used to run the methods on concrete inputs. *)

Module Worlds.

(** The value a call returns in the worlds below when it does not
    raise: element 7, [True], an empty page. *)
Definition blank (c : Call) : Resp c :=
  match c as c' return Resp c' with
  | wait_until_clickable _ _ _ _ => 7%nat
  | driver_find_element _ _ _ => 7%nat
  | element_is_displayed _ => true
  | element_is_enabled _ => true
  | dom_get_clickable_elements _ =>
      {| content_items := []; content_selector_map := ∅ |}
  | driver_current_url _ => ""
  | driver_title _ => ""
  | _ => tt
  end.

(** A world where the calls selected by [fails] raise the given message,
    every other call succeeds, and call [c] takes [took c].  Printing
    and waking up take no time, and the clock reads the float nearest to
    the time. *)
Definition scripted (fails : Call -> option string) (took : Call -> Dur) : Env :=
  {| reply := fun _ c =>
       (took c,
        match fails c with
        | Some m => Raise (Exception m)
        | None => Ok (blank c)
        end);
     lag := fun _ => instant;
     clock := PyFloat.nearest |}.

(** Every call succeeds at once. *)
Definition calm : Env := scripted (fun _ => None) (fun _ => instant).

(** No browser can be launched. *)
Definition no_browser : Env :=
  scripted
    (fun c => match c with
              | webdriver_Chrome _ => Some "chromedriver not found"
              | _ => None
              end)
    (fun _ => instant).


(** Nothing can be found or waited for on the page. *)
Definition dead_page : Env :=
  scripted
    (fun c => match c with
              | wait_until_clickable _ _ _ _ => Some "timeout"
              | driver_find_element _ _ _ => Some "no such element"
              | _ => None
              end)
    (fun _ => instant).

(** The browser refuses to quit. *)
Definition stuck_quit : Env :=
  scripted
    (fun c => match c with
              | driver_quit _ => Some "connection refused"
              | _ => None
              end)
    (fun _ => instant).





(** A fresh service and one whose driver 0 is running. *)
Definition fresh : Machine := __init__ false 0.

Definition running : Machine :=
  {| headless := false; driver := Some 0%nat; current_state := None;
     now := 0; trace := []; live := {[ 0%nat ]}; launched := 1 |}.


(** A snapshot with one element. *)
Definition page : BrowserState :=
  {| items := ["button"]; selector_map := {[ 0%Z := "//button[@id='submit']" ]};
     url := "http://localhost/"; title := "" |}.

End Worlds.

(** ** The specification's vocabulary *)

(** The error taxonomy.  The service has one exception class; the kinds of
    the specification are told apart by the message. *)
Definition ElementNotFound (index : Z) : Exn :=
  Exception ("Element index " +:+ pretty index +:+ " not found in selector map").

Definition CLICK : string := "click element".
Definition INPUT : string := "input text into element".

Definition ActionFailed (action locator cause : string) : Exn :=
  Exception ("Failed to " +:+ action +:+ " with xpath: " +:+ locator
             +:+ ". Error: " +:+ cause).

Definition is_ActionFailed (e : Exn) : Prop :=
  ∃ action locator cause, e = ActionFailed action locator cause.

Definition is_ElementNotFound (e : Exn) : Prop :=
  ∃ index, e = ElementNotFound index.

(** The calls to the browser connection among some events. *)
Definition driver_calls (evs : list Event) : list Call :=
  omap (fun ev => match ev with Driver c => Some c | _ => None end) evs.


(** The connection a service holds, as a set. *)
Definition held (σ : Machine) : gset Conn :=
  match driver σ with
  | Some d => {[ d ]}
  | None => ∅
  end.

(** The session invariant: a live browser is the one the service holds,
    and the names of the browsers launched so far are used up. *)
Definition session_ok (σ : Machine) : Prop :=
  live σ ⊆ held σ ∧ ∀ d, d ∈ live σ ∪ held σ → (d < launched σ)%nat.

(** A method keeps the session invariant. *)
Definition preserves {A} (m : M A) : Prop :=
  ∀ σ, session_ok σ → session_ok (snd (m σ)).

(** Assumptions on the world. *)

(** The injection of the stealth script into a new browser succeeds. *)
Definition stealth_ok (env : Env) : Prop :=
  ∀ h d, snd (reply env h (driver_execute_cdp_cmd d)) = Ok tt.



(** ** What the methods leave behind, in closed form *)

Section Footprint.

Variable env : Env.

(** The state after the readiness poll on driver [d]. *)
Definition after_poll (d : Conn) (σ : Machine) : Machine :=
  happen (Driver (wait_until_ready d 5))
         (seconds (fst (reply env (trace σ) (wait_until_ready d 5)))) σ.

(** The calls of the text-input procedure on element [el], in order. *)
Definition input_steps (d : Conn) (xpath text : string) (el : Element)
    : list Call :=
  [ wait_until_clickable d 10 xpath "";
    actions_move_to_element d el;
    driver_execute_script d JS_CLEAR_VALUE el;
    element_send_keys el text;
    wait_until_ready d 5 ].

End Footprint.

(** ** The procedures as the specification words them

    The synchroniser, the click chain and the text-input procedure,
    written from the specification (sections 4.2 and 4.4) over the same
    world, independently of the methods above.  The theorems compare the
    two. *)

Module Spec.

(** *** The identifier fragment of a locator *)

(** What follows [id=] in a text that starts with it. *)
Definition after_id (s : string) : option string :=
  match s with
  | String a (String b (String c rest)) =>
      if Ascii.eqb a "i" && Ascii.eqb b "d" && Ascii.eqb c "="
      then Some rest
      else None
  | _ => None
  end.

(** The text after the last [id=] of a locator, if it has one. *)
Fixpoint after_last_id (s : string) : option string :=
  match s with
  | EmptyString => None
  | String _ s' =>
      match after_last_id s' with
      | Some rest => Some rest
      | None => after_id s
      end
  end.

(** The text before the first closing bracket. *)
Fixpoint up_to_bracket (s : string) : string :=
  match s with
  | EmptyString => ""
  | String a s' =>
      if Ascii.eqb a "]" then "" else String a (up_to_bracket s')
  end.

(** The fragment taken as it stands: what follows the last [id=], up to
    the closing bracket. *)
Definition fragment_text (locator : string) : option string :=
  option_map up_to_bracket (after_last_id locator).





(** *** Page-ready synchroniser (4.2) *)

Section Synchroniser.

Variable env : Env.
Variable d : Conn.

(** Poll the readiness signal, at most 5 time units.  However the
    poll ends, go on; then make up what the poll left of the minimum
    settle delay, counted from the start of the wait.  The line the
    service prints is part of what the world sees. *)
Definition synchronise : M unit :=
  fun σ =>
    let poll := wait_until_ready d 5 in
    let started := clock env (now σ) in
    let σ1 := happen (Driver poll) (seconds (fst (reply env (trace σ) poll))) σ in
    let elapsed := PyFloat.sub (clock env (now σ1)) started in
    let lacking := PyFloat.sub MINIMUM_WAIT_TIME elapsed in
    let σ2 := happen (Print (page_loaded_line elapsed (PyFloat.max_0 lacking)))
                     (seconds (lag env (trace σ1))) σ1 in
    if PyFloat.ltb PyFloat.zero lacking
    then time_sleep env lacking σ2
    else (Ok tt, σ2).

End Synchroniser.

(** *** Click (4.4) *)


Section Chain.

Variable env : Env.
(** How the identifier is read off the locator. *)
Variable identifier : string -> option string.
Variable d : Conn.
Variable locator : string.








End Chain.

(** *** Text input (4.4) *)

Section Input.

Variable env : Env.
Variable d : Conn.
Variable locator text : string.

(** What is done to the element once the wait has found it: scroll it
    into view, reset its value, type the text. *)
Definition input_actions (el : Element) : list Call :=
  [ actions_move_to_element d el;
    driver_execute_script d JS_CLEAR_VALUE el;
    element_send_keys el text ].

(** Carry out calls one after the other; the first that fails ends
    the run. *)
Fixpoint in_order (calls : list Call) : M unit :=
  match calls with
  | [] => ret tt
  | c :: rest => perform env c ;; in_order rest
  end.

(** The single path: wait, at most 10 time units, for the element to
    be clickable; act on it; synchronise.  A failure at any step is
    [ActionFailed], with the locator and the cause. *)
Definition input_text : M unit :=
  try_except
    (el <- perform env (wait_until_clickable d 10 locator "") ;;
     in_order (input_actions el) ;;
     synchronise env d)
    (fun cause => raise (ActionFailed INPUT locator (str cause))).

(** The calls among [calls] that are made after the events [h], up to
    and with the first that fails, and the failure. *)
Fixpoint attempted (h : list Event) (calls : list Call)
    : list Call * option Exn :=
  match calls with
  | [] => ([], None)
  | c :: rest =>
      match snd (reply env h c) with
      | Raise e => ([c], Some e)
      | Ok _ =>
          let '(made, failure) := attempted (h ++ [Driver c]) rest in
          (c :: made, failure)
      end
  end.

End Input.

End Spec.

(** ** Sequences of operations on one service *)

Inductive Op : Type :=
| op_init
| op_go_to_url (address : string)
| op_search_google (query : string)
| op_go_back
| op_refresh
| op_get_updated_state
| op_click_element_by_index (index : Z) (state : BrowserState)
| op_input_text_by_index (index : Z) (text : string) (state : BrowserState)
| op_close.

(** Forget the value of a method. *)
Definition void {A} (m : M A) : M unit := m ;; ret tt.

Definition run_op (env : Env) (op : Op) : M unit :=
  match op with
  | op_init => void (init env)
  | op_go_to_url a => go_to_url env a
  | op_search_google q => search_google env q
  | op_go_back => go_back env
  | op_refresh => refresh env
  | op_get_updated_state => void (get_updated_state env)
  | op_click_element_by_index i s => click_element_by_index env i s
  | op_input_text_by_index i t s => input_text_by_index env i t s
  | op_close => close env
  end.

(** The caller runs the operations one after the other, and goes on when
    one raises. *)
Fixpoint run_ops (env : Env) (ops : list Op) (σ : Machine) : Machine :=
  match ops with
  | [] => σ
  | op :: rest => run_ops env rest (snd (run_op env op σ))
  end.

(** ** The blocks of [_click_element_by_xpath]

    The three inner [try] blocks of the method, named so that each can be
    compared with a stage of the specification. *)

Section Blocks.

Variable env : Env.




End Blocks.


(** ** Vocabulary for the remaining methods *)

(** The navigation request an operation sends to driver [d], if it is one
    of the four navigation methods. *)
Definition navigation_call (op : Op) (d : Conn) : option Call :=
  match op with
  | op_go_to_url a => Some (driver_get d a)
  | op_search_google q =>
      Some (driver_get d ("https://www.google.com/search?q=" +:+ q))
  | op_go_back => Some (driver_back d)
  | op_refresh => Some (driver_refresh d)
  | _ => None
  end.

(** The operations that ask for the driver before anything else. *)
Definition starts_with_driver (op : Op) : bool :=
  match op with
  | op_click_element_by_index i s => bool_decide (is_Some (selector_map s !! i))
  | op_input_text_by_index i _ s => bool_decide (is_Some (selector_map s !! i))
  | _ => true
  end.

(** A method leaves the stored snapshot alone. *)
Definition keeps_snapshot {A} (m : M A) : Prop :=
  ∀ σ, current_state (snd (m σ)) = current_state σ.






(** Whether an event launches a browser. *)
Definition is_launch (ev : Event) : bool :=
  match ev with
  | Driver (webdriver_Chrome _) => true
  | _ => false
  end.

(** The service holds no browser into which the stealth script was not
    injected. *)
Definition prepared (σ : Machine) : Prop :=
  ∀ d, driver σ = Some d → Driver (driver_execute_cdp_cmd d) ∈ trace σ.

(** A method keeps [prepared]. *)
Definition keeps_prepared {A} (m : M A) : Prop :=
  ∀ σ, prepared σ → prepared (snd (m σ)).

Module MoreWorlds.

(** The browser starts, but refuses the stealth script. *)
Definition no_stealth : Env :=
  Worlds.scripted
    (fun c => match c with
              | driver_execute_cdp_cmd _ => Some "cdp refused"
              | _ => None
              end)
    (fun _ => instant).

(** The page cannot be fetched. *)
Definition offline : Env :=
  Worlds.scripted
    (fun c => match c with
              | driver_get _ _ => Some "net::ERR_INTERNET_DISCONNECTED"
              | _ => None
              end)
    (fun _ => instant).

(** The page has gone when its title is read. *)
Definition no_title : Env :=
  Worlds.scripted
    (fun c => match c with
              | driver_title _ => Some "no such window"
              | _ => None
              end)
    (fun _ => instant).


(** A running service that remembers a snapshot. *)
Definition informed : Machine :=
  set_current_state Worlds.page Worlds.running.

End MoreWorlds.

(** * Properties *)

(** ** Binary64 arithmetic *)


Lemma ltb_zero_neg x : PyFloat.ltb x PyFloat.zero = true → PyFloat.ltb PyFloat.zero x = false.
Proof. by destruct x as [[]|[]| |[] m e]. Qed.

Lemma max_0_positive x :
  PyFloat.ltb PyFloat.zero (PyFloat.max_0 x) = PyFloat.ltb PyFloat.zero x ∧
  (PyFloat.ltb PyFloat.zero x = true → PyFloat.max_0 x = x).
Proof.
  unfold PyFloat.max_0. destruct (PyFloat.ltb x PyFloat.zero) eqn:E; [|done].
  apply ltb_zero_neg in E. rewrite E. done.
Qed.


Lemma sub_zero_r : PyFloat.sub MINIMUM_WAIT_TIME PyFloat.zero = MINIMUM_WAIT_TIME.
Proof. reflexivity. Qed.






(** ** Strings: the identifier fragment *)

Lemma append_nil_r (s : string) : s +:+ "" = s.
Proof.
  induction s as [|a s IH]; [done|].
  change (String a s +:+ "") with (String a (s +:+ "")). by rewrite IH.
Qed.

Lemma append_snoc (cur : string) (a : ascii) (s : string) :
  (cur +:+ String a "") +:+ s = cur +:+ String a s.
Proof.
  induction cur as [|c cur IH]; [done|].
  change ((String c cur +:+ String a "") +:+ s)
    with (String c ((cur +:+ String a "") +:+ s)).
  by rewrite IH.
Qed.

Lemma split_aux_nonempty sep skip cur s : PyStr.split_aux sep skip cur s ≠ [].
Proof.
  revert skip cur. induction s as [|a s IH]; intros skip cur; [done|].
  cbn [PyStr.split_aux]. destruct skip; [|apply IH].
  destruct (String.prefix sep (String a s)); [done|apply IH].
Qed.

Lemma last_cons_nonempty {A} (x : A) (l : list A) (d : A) :
  l ≠ [] → List.last (x :: l) d = List.last l d.
Proof. by destruct l. Qed.

Lemma prefix_bracket (a : ascii) (s : string) :
  String.prefix "]" (String a s) = Ascii.eqb a "]".
Proof.
  cbn [String.prefix]. destruct (ascii_dec "]" a) as [<-|Hne].
  - by destruct s.
  - symmetry. apply Ascii.eqb_neq. congruence.
Qed.

Lemma split_bracket_first (cur s : string) :
  List.hd "" (PyStr.split_aux "]" 0 cur s) = cur +:+ Spec.up_to_bracket s.
Proof.
  revert cur. induction s as [|a s IH]; intros cur.
  - cbn. by rewrite append_nil_r.
  - cbn [PyStr.split_aux Spec.up_to_bracket]. rewrite prefix_bracket.
    destruct (Ascii.eqb a "]").
    + cbn. by rewrite append_nil_r.
    + rewrite IH. apply append_snoc.
Qed.

Lemma after_id_Some (s rest : string) :
  Spec.after_id s = Some rest → s = String "i" (String "d" (String "=" rest)).
Proof.
  destruct s as [|a [|b [|c r]]]; try done. cbn [Spec.after_id].
  destruct (Ascii.eqb_spec a "i") as [->|]; [|done].
  destruct (Ascii.eqb_spec b "d") as [->|]; [|done].
  destruct (Ascii.eqb_spec c "=") as [->|]; [|done].
  by intros [= ->].
Qed.

Lemma after_id_None (s : string) :
  Spec.after_id s = None → String.prefix "id=" s = false.
Proof.
  destruct s as [|a [|b [|c r]]]; cbn [Spec.after_id String.prefix]; try done.
  - intros _. by destruct (ascii_dec "i" a).
  - intros _. destruct (ascii_dec "i" a); [|done]. by destruct (ascii_dec "d" b).
  - destruct (ascii_dec "i" a) as [<-|]; [|done].
    destruct (ascii_dec "d" b) as [<-|]; [|done].
    destruct (ascii_dec "=" c) as [<-|]; [|done]. done.
Qed.

Lemma prefix_id (rest : string) :
  String.prefix "id=" (String "i" (String "d" (String "=" rest))) = true.
Proof. by destruct rest. Qed.

Lemma after_id_other (a : ascii) (s : string) :
  Ascii.eqb a "i" = false → Spec.after_id (String a s) = None.
Proof.
  intros Ha. destruct s as [|b [|c r]]; cbn [Spec.after_id]; try done.
  by rewrite Ha.
Qed.

Lemma split_id_last (n : nat) (s cur : string) :
  (String.length s <= n)%nat →
  List.last (PyStr.split_aux "id=" 0 cur s) ""
  = match Spec.after_last_id s with
    | Some rest => rest
    | None => cur +:+ s
    end.
Proof.
  revert s cur. induction n as [|n IH]; intros s cur Hn.
  - destruct s; [|cbn in Hn; lia]. cbn. by rewrite append_nil_r.
  - destruct s as [|a s']; [cbn; by rewrite append_nil_r|].
    destruct (Spec.after_id (String a s')) as [rest|] eqn:Hid.
    + apply after_id_Some in Hid. injection Hid as -> ->.
      cbn [String.length] in Hn.
      cbn [PyStr.split_aux]. rewrite (prefix_id rest).
      cbn [String.length Nat.sub].
      rewrite last_cons_nonempty by apply split_aux_nonempty.
      rewrite (IH rest "") by lia.
      cbn [Spec.after_last_id].
      rewrite (after_id_other "=" rest), (after_id_other "d" (String "=" rest)) by done.
      destruct (Spec.after_last_id rest); [done|]. reflexivity.
    + cbn [PyStr.split_aux]. rewrite (after_id_None _ Hid).
      cbn [String.length] in Hn. rewrite (IH s') by lia.
      cbn [Spec.after_last_id]. rewrite Hid.
      destruct (Spec.after_last_id s'); [done|]. apply append_snoc.
Qed.

Lemma contains_id (s : string) :
  PyStr.contains "id=" s = bool_decide (is_Some (Spec.after_last_id s)).
Proof.
  induction s as [|a s IH]; [done|].
  cbn [PyStr.contains Spec.after_last_id]. rewrite IH.
  destruct (Spec.after_last_id s) as [r|].
  - rewrite !bool_decide_eq_true_2 by eauto. apply orb_true_r.
  - rewrite (bool_decide_eq_false_2 (is_Some None)) by (by intros [? [=]]).
    rewrite orb_false_r.
    destruct (Spec.after_id (String a s)) as [r|] eqn:Hid.
    + apply after_id_Some in Hid. rewrite Hid, prefix_id.
      by rewrite bool_decide_eq_true_2 by eauto.
    + rewrite (after_id_None _ Hid).
      by rewrite bool_decide_eq_false_2 by (by intros [? [=]]).
Qed.

(** The identifier the method looks up is the fragment as it stands. *)
Lemma id_value_fragment_text (xpath : string) :
  match Spec.fragment_text xpath with
  | Some id =>
      PyStr.contains "id=" xpath = true ∧
      PyStr.item_first (PyStr.split "]" (PyStr.item_last (PyStr.split "id=" xpath))) = id
  | None => PyStr.contains "id=" xpath = false
  end.
Proof.
  unfold Spec.fragment_text. rewrite contains_id.
  unfold PyStr.item_first, PyStr.item_last, PyStr.split.
  rewrite (split_id_last (String.length xpath)) by lia.
  destruct (Spec.after_last_id xpath) as [rest|]; cbn [option_map].
  - split; [by rewrite bool_decide_eq_true_2 by eauto|].
    by rewrite split_bracket_first.
  - by rewrite bool_decide_eq_false_2 by (by intros [? [=]]).
Qed.

(** ** The primitives and the synchroniser *)


Lemma bind_ok {A B} (m : M A) (k : A → M B) σ a σ' :
  m σ = (Ok a, σ') → bind m k σ = k a σ'.
Proof. intros H. unfold bind. by rewrite H. Qed.

Lemma bind_raise {A B} (m : M A) (k : A → M B) σ e σ' :
  m σ = (Raise e, σ') → bind m k σ = (Raise e, σ').
Proof. intros H. unfold bind. by rewrite H. Qed.

Section Basics.
Variable env : Env.

Lemma perform_eq c σ :
  perform env c σ =
    (snd (reply env (trace σ) c),
     happen (Driver c) (seconds (fst (reply env (trace σ) c))) σ).
Proof. unfold perform. by destruct (reply env (trace σ) c). Qed.

Lemma _get_driver_held σ d :
  driver σ = Some d → _get_driver env σ = (Ok d, σ).
Proof.
  intros H. unfold _get_driver, bind, self_driver. by rewrite H.
Qed.

Lemma _get_driver_ok σ d σ' :
  _get_driver env σ = (Ok d, σ') → driver σ' = Some d.
Proof.
  unfold _get_driver, bind, self_driver.
  destruct (driver σ) as [d0|] eqn:Hd.
  - unfold ret. intros [= <- <-]. done.
  - unfold init, bind, self_headless, launch, assign_driver, ret.
    rewrite !perform_eq.
    destruct (snd (reply env (trace σ) _)); [|done].
    cbn -[Qplus]. rewrite perform_eq.
    destruct (snd (reply env _ _)); [|done].
    cbn -[Qplus]. by intros [= <- <-].
Qed.

Lemma _webdriver_wait_held σ d :
  driver σ = Some d →
  _webdriver_wait env σ = (Ok {| wait_driver := d; wait_timeout := 10 |}, σ).
Proof.
  intros Hd. unfold _webdriver_wait.
  by rewrite (bind_ok _ _ _ _ _ (_get_driver_held σ d Hd)).
Qed.

Lemma poll_ready_state_eq d σ :
  poll_ready_state env d σ = (Ok tt, after_poll env d σ).
Proof.
  unfold poll_ready_state, try_except, bind, ret, after_poll.
  rewrite perform_eq. by destruct (snd (reply env _ _)).
Qed.

Lemma after_poll_trace d σ :
  trace (after_poll env d σ) = trace σ ++ [Driver (wait_until_ready d 5)].
Proof. done. Qed.


(** The method is the synchroniser of the specification, on the driver
    it gets. *)
Lemma wait_for_page_load_from σ d σ0 :
  _get_driver env σ = (Ok d, σ0) →
  wait_for_page_load env σ = Spec.synchronise env d σ0.
Proof.
  intros Hd. unfold wait_for_page_load, bind.
  rewrite Hd. unfold time_time.
  rewrite poll_ready_state_eq. unfold print, Spec.synchronise, after_poll.
  cbv zeta.
  set (lacking := PyFloat.sub MINIMUM_WAIT_TIME _).
  destruct (max_0_positive lacking) as [-> Hmax].
  destruct (PyFloat.ltb PyFloat.zero lacking); [|done].
  by rewrite Hmax.
Qed.

Lemma wait_for_page_load_eq σ d :
  driver σ = Some d →
  wait_for_page_load env σ = Spec.synchronise env d σ.
Proof. intros Hd. by apply wait_for_page_load_from, _get_driver_held. Qed.

(** What the synchroniser leaves behind: the poll, then a printed line
    and at most one sleep; the fields of the service are as before. *)
Lemma synchronise_footprint d σ :
  ∃ evs,
    trace (snd (Spec.synchronise env d σ))
    = trace σ ++ Driver (wait_until_ready d 5) :: evs ∧
    driver_calls evs = [] ∧
    driver (snd (Spec.synchronise env d σ)) = driver σ ∧
    current_state (snd (Spec.synchronise env d σ)) = current_state σ.
Proof.
  unfold Spec.synchronise, time_sleep. cbv zeta.
  set (elapsed := PyFloat.sub (clock env _) (clock env _)).
  set (lacking := PyFloat.sub MINIMUM_WAIT_TIME elapsed).
  destruct (PyFloat.ltb PyFloat.zero lacking); [destruct (sleep_error lacking)|].
  - exists [Print (page_loaded_line elapsed (PyFloat.max_0 lacking))].
    cbn [snd trace happen]. by rewrite <- !app_assoc.
  - exists [Print (page_loaded_line elapsed (PyFloat.max_0 lacking)); Sleep lacking].
    cbn [snd trace happen]. by rewrite <- !app_assoc.
  - exists [Print (page_loaded_line elapsed (PyFloat.max_0 lacking))].
    cbn [snd trace happen]. by rewrite <- !app_assoc.
Qed.


End Basics.

(** ** The minimum wait *)




(** ** The readiness poll *)

Section AsIfReady.

Variable env : Env.












End AsIfReady.



(** ** The click chain *)








(** ** Errors *)

Lemma ActionFailed_not_ElementNotFound action locator cause index :
  ActionFailed action locator cause ≠ ElementNotFound index.
Proof. unfold ActionFailed, ElementNotFound. cbn. intros [=]. Qed.

Lemma length_append (a b : string) :
  String.length (a +:+ b) = (String.length a + String.length b)%nat.
Proof.
  induction a as [|c a IH]; [done|].
  change (String c a +:+ b) with (String c (a +:+ b)).
  cbn [String.length]. by rewrite IH.
Qed.

Lemma app_string_inj_r (a b s : string) : a +:+ s = b +:+ s → a = b.
Proof.
  revert b. induction a as [|c a IH]; intros [|c' b] H.
  - done.
  - apply (f_equal String.length) in H.
    rewrite !length_append in H. cbn [String.length] in H. lia.
  - apply (f_equal String.length) in H.
    rewrite !length_append in H. cbn [String.length] in H. lia.
  - change (String c (a +:+ s) = String c' (b +:+ s)) in H.
    injection H as -> H. f_equal. by apply IH.
Qed.

Lemma ElementNotFound_inj : Inj (=) (=) ElementNotFound.
Proof.
  intros i j H. unfold ElementNotFound in H. injection H as H.
  cbn in H. repeat (injection H as H).
  change (pretty i +:+ " not found in selector map"
          = pretty j +:+ " not found in selector map") in H.
  apply app_string_inj_r in H. by apply pretty_Z_inj in H.
Qed.

(** C1.  An index that is not a key of the snapshot's selector map makes
    both [click_element_by_index] and [input_text_by_index] raise
    [ElementNotFound] for that index, and the machine is left exactly as it
    was: no call reaches the browser, no driver is created, nothing is
    tried again.  The error identifies the index: two indices with the
    same error are equal. *)
Theorem absent_index_raises_without_interaction
    (env : Env) (index : Z) (text : string) (state : BrowserState) (σ : Machine) :
  selector_map state !! index = None →
  click_element_by_index env index state σ = (Raise (ElementNotFound index), σ) ∧
  input_text_by_index env index text state σ = (Raise (ElementNotFound index), σ) ∧
  ∀ j, ElementNotFound j = ElementNotFound index → j = index.
Proof.
  intros Habsent.
  unfold click_element_by_index, input_text_by_index, time_execution_sync.
  rewrite Habsent. split; [done|]. split; [done|].
  intros j Hj. by apply ElementNotFound_inj.
Qed.

Lemma _click_element_by_xpath_outcome (env : Env) (xpath : string) σ d σ0 :
  _get_driver env σ = (Ok d, σ0) →
  fst (_click_element_by_xpath env xpath σ) = Ok tt ∨
  ∃ cause, fst (_click_element_by_xpath env xpath σ)
           = Raise (ActionFailed CLICK xpath cause).
Proof.
  intros Hd. pose proof (_get_driver_ok _ _ _ _ Hd) as Hheld.
  destruct (_click_element_by_xpath env xpath σ) as [r σ1] eqn:E. cbn [fst].
  unfold _click_element_by_xpath, _webdriver_wait, bind in E.
  rewrite Hd in E. cbn beta iota in E.
  rewrite (_get_driver_held _ _ _ Hheld) in E.
  unfold ret at 1 in E. cbn beta iota in E. unfold try_except at 1 in E.
  match type of E with
  | context [or_else ?a ?b σ0] => destruct (or_else a b σ0) as [[[]|e] σ']
  end.
  - left. by injection E as <- _.
  - right. exists (str e). by injection E as <- _.
Qed.

Lemma _get_driver_failure_click (env : Env) index state xpath σ e σ0 :
  selector_map state !! index = Some xpath →
  _get_driver env σ = (Raise e, σ0) →
  click_element_by_index env index state σ = (Raise e, σ0).
Proof.
  intros Hx Hd. unfold click_element_by_index, time_execution_sync.
  rewrite Hx. unfold _click_element_by_xpath, bind. by rewrite Hd.
Qed.

Lemma _get_driver_failure_input (env : Env) index text state xpath σ e σ0 :
  selector_map state !! index = Some xpath →
  _get_driver env σ = (Raise e, σ0) →
  input_text_by_index env index text state σ = (Raise e, σ0).
Proof.
  intros Hx Hd. unfold input_text_by_index.
  rewrite Hx. unfold _input_text_by_xpath, bind. by rewrite Hd.
Qed.

(** C2, amended.  For an index present in the selector map, once the
    driver is available (held already, or created without failure),
    [click_element_by_index] either returns or raises [ActionFailed] for
    the element's locator; it never raises [ElementNotFound]. *)
Theorem click_valid_index_outcome
    (env : Env) (index : Z) (state : BrowserState) (xpath : string)
    (σ : Machine) (d : Conn) (σ0 : Machine) :
  selector_map state !! index = Some xpath →
  _get_driver env σ = (Ok d, σ0) →
  let r := fst (click_element_by_index env index state σ) in
  (r = Ok tt ∨ ∃ cause, r = Raise (ActionFailed CLICK xpath cause)) ∧
  ∀ i, r ≠ Raise (ElementNotFound i).
Proof.
  intros Hx Hd. cbv zeta.
  unfold click_element_by_index, time_execution_sync. rewrite Hx.
  destruct (_click_element_by_xpath_outcome env xpath σ d σ0 Hd) as [H|[cause H]];
    rewrite H.
  - split; [by left | done].
  - split; [right; by exists cause |].
    intros i Heq. apply (ActionFailed_not_ElementNotFound CLICK xpath cause i).
    congruence.
Qed.

(** C2 as stated fails: with a valid index on a fresh service whose
    browser cannot be launched, the launch failure leaves
    [click_element_by_index] as it is, and it is no [ActionFailed]. *)
Lemma click_valid_index_launch_failure_unwrapped :
  selector_map Worlds.page !! 0%Z = Some "//button[@id='submit']" ∧
  fst (click_element_by_index Worlds.no_browser 0 Worlds.page Worlds.fresh)
    = Raise (Exception "chromedriver not found") ∧
  ¬ is_ActionFailed (Exception "chromedriver not found").
Proof.
  split; [by vm_compute|]. split; [by vm_compute|].
  intros (action & locator & cause & H). unfold ActionFailed in H. cbn in H.
  discriminate H.
Qed.



(** ** Text input *)

Lemma _input_text_by_xpath_spec (env : Env) (xpath text : string) σ d σ0 :
  _get_driver env σ = (Ok d, σ0) →
  _input_text_by_xpath env xpath text σ = Spec.input_text env d xpath text σ0.
Proof.
  intros Hd. pose proof (_get_driver_ok _ _ _ _ Hd) as Hheld.
  unfold _input_text_by_xpath. rewrite (bind_ok _ _ _ _ _ Hd).
  unfold Spec.input_text, try_except.
  rewrite (bind_ok _ _ _ _ _ (_webdriver_wait_held env σ0 d Hheld)).
  unfold until_element_to_be_clickable, Spec.input_actions.
  cbn [Spec.in_order]. unfold bind, ret, raise.
  repeat first
    [ progress cbn beta iota zeta delta [fst snd wait_driver wait_timeout]
    | rewrite perform_eq
    | match goal with
      | |- context [wait_for_page_load env ?s] =>
          rewrite (wait_for_page_load_eq env s d Hheld)
      | |- context [match snd (reply env ?h ?c) with _ => _ end] =>
          destruct (snd (reply env h c)) as [?|?]
      end ];
    reflexivity.
Qed.

Lemma driver_calls_Driver (l : list Call) : driver_calls (Driver <$> l) = l.
Proof.
  induction l as [|c l IH]; [done|].
  cbn. fold (driver_calls (Driver <$> l)). by rewrite IH.
Qed.

Lemma driver_calls_app (a b : list Event) :
  driver_calls (a ++ b) = driver_calls a ++ driver_calls b.
Proof. apply omap_app. Qed.

(** How the specification's procedure ends, step by step. *)
Lemma input_text_steps (env : Env) (xpath text : string) (d : Conn) σ0 :
  driver σ0 = Some d →
  let r := Spec.input_text env d xpath text σ0 in
  let wait := wait_until_clickable d 10 xpath "" in
  match snd (reply env (trace σ0) wait) with
  | Raise cause =>
      fst r = Raise (ActionFailed INPUT xpath (str cause)) ∧
      trace (snd r) = trace σ0 ++ [Driver wait]
  | Ok el =>
      let attempt :=
        Spec.attempted env (trace σ0 ++ [Driver wait])
          (Spec.input_actions d text el) in
      match snd attempt with
      | Some cause =>
          fst r = Raise (ActionFailed INPUT xpath (str cause)) ∧
          trace (snd r) = trace σ0 ++ Driver wait :: (Driver <$> fst attempt)
      | None =>
          fst attempt = Spec.input_actions d text el ∧
          (fst r = Ok tt ∨
           ∃ secs cause,
             sleep_error secs = Some cause ∧
             fst r = Raise (ActionFailed INPUT xpath (str cause))) ∧
          ∃ evs,
            trace (snd r)
            = trace σ0 ++ Driver wait :: (Driver <$> fst attempt)
              ++ Driver (wait_until_ready d 5) :: evs ∧
            driver_calls evs = []
      end
  end.
Proof.
  intros Hheld. cbv zeta.
  unfold Spec.input_text, Spec.input_actions.
  cbn [Spec.in_order Spec.attempted]. unfold try_except, bind, ret, raise.
  rewrite perform_eq.
  destruct (snd (reply env (trace σ0) _)) as [el|e1];
    cbn beta iota zeta delta [fst snd]; [|done].
  rewrite perform_eq. cbn [trace happen].
  destruct (snd (reply env _ (actions_move_to_element d el))) as [[]|e2];
    cbn beta iota zeta delta [fst snd];
    [|split; [done|]; cbn [trace happen fmap list_fmap]; by rewrite <- !app_assoc].
  rewrite perform_eq. cbn [trace happen].
  destruct (snd (reply env _ (driver_execute_script d JS_CLEAR_VALUE el))) as [[]|e3];
    cbn beta iota zeta delta [fst snd];
    [|split; [done|]; cbn [trace happen fmap list_fmap]; by rewrite <- !app_assoc].
  rewrite perform_eq. cbn [trace happen].
  destruct (snd (reply env _ (element_send_keys el text))) as [[]|e4];
    cbn beta iota zeta delta [fst snd];
    [|split; [done|]; cbn [trace happen fmap list_fmap]; by rewrite <- !app_assoc].
  split; [done|].
  match goal with
  | |- context [Spec.synchronise env d ?s] =>
      destruct (synchronise_footprint env d s) as (evs & Htr & Hevs & _);
      pose proof (eq_refl (Spec.synchronise env d s)) as Hsync;
      unfold Spec.synchronise at 2 in Hsync; unfold time_sleep in Hsync;
      cbv zeta in Hsync;
      destruct (Spec.synchronise env d s) as [[[]|cause] σ']
  end; cbn [fst snd] in *.
  - split; [by left|]. exists evs. split; [|done].
    rewrite Htr. cbn [trace happen fmap list_fmap]. by rewrite <- !app_assoc.
  - split.
    + right.
      match type of Hsync with
      | context [sleep_error ?secs] =>
          exists secs, cause; destruct (PyFloat.ltb PyFloat.zero secs); [|done];
          destruct (sleep_error secs) as [e|]; [|done];
          by injection Hsync as ->
      end.
    + exists evs. split; [|done].
      rewrite Htr. cbn [trace happen fmap list_fmap]. by rewrite <- !app_assoc.
Qed.

(** C7, amended.  For an index present in the selector map, once the
    driver is available, [input_text_by_index] goes through its steps once
    each, in order, up to the first that fails.  When the wait for the
    element raises, that is the only call and the error is [ActionFailed]
    with the locator and the message of the cause.  Otherwise the calls
    made on the element are those of the procedure up to and with the
    first that raises, and the error wraps that cause in the same way.
    When none raises, the synchroniser follows, and the method returns
    unless [time.sleep] refuses the length, which is wrapped like any other
    cause.  The error is built from the locator and the cause alone. *)
Theorem input_text_single_attempt
    (env : Env) (index : Z) (text : string) (state : BrowserState)
    (xpath : string) (σ : Machine) (d : Conn) (σ0 : Machine) :
  selector_map state !! index = Some xpath →
  _get_driver env σ = (Ok d, σ0) →
  let r := input_text_by_index env index text state σ in
  let wait := wait_until_clickable d 10 xpath "" in
  match snd (reply env (trace σ0) wait) with
  | Raise cause =>
      fst r = Raise (ActionFailed INPUT xpath (str cause)) ∧
      trace (snd r) = trace σ0 ++ [Driver wait]
  | Ok el =>
      let attempt :=
        Spec.attempted env (trace σ0 ++ [Driver wait])
          (Spec.input_actions d text el) in
      match snd attempt with
      | Some cause =>
          fst r = Raise (ActionFailed INPUT xpath (str cause)) ∧
          trace (snd r) = trace σ0 ++ Driver wait :: (Driver <$> fst attempt)
      | None =>
          fst attempt = Spec.input_actions d text el ∧
          (fst r = Ok tt ∨
           ∃ secs cause,
             sleep_error secs = Some cause ∧
             fst r = Raise (ActionFailed INPUT xpath (str cause))) ∧
          ∃ evs,
            trace (snd r)
            = trace σ0 ++ Driver wait :: (Driver <$> fst attempt)
              ++ Driver (wait_until_ready d 5) :: evs ∧
            driver_calls evs = []
      end
  end.
Proof.
  intros Hx Hd. cbv zeta. unfold input_text_by_index. rewrite Hx.
  rewrite (_input_text_by_xpath_spec env xpath text σ d σ0 Hd).
  apply input_text_steps. by apply (_get_driver_ok env σ).
Qed.

(** C7 as stated fails: the error raised when typing "hello" fails
    carries the locator and the cause, and the length of the text occurs
    nowhere in it. *)
Lemma input_text_failure_omits_text_length :
  selector_map Worlds.page !! 0%Z = Some "//button[@id='submit']" ∧
  fst (input_text_by_index Worlds.dead_page 0 "hello" Worlds.page Worlds.running)
    = Raise (ActionFailed INPUT "//button[@id='submit']" "timeout") ∧
  PyStr.contains (pretty (String.length "hello"))
    (str (ActionFailed INPUT "//button[@id='submit']" "timeout")) = false.
Proof. by vm_compute. Qed.

(** C8, amended.  For an index present in the selector map, once the
    driver is available, [input_text_by_index] is the text-input procedure
    of the specification on the element's locator: the wait, at most 10,
    for the element to be clickable; the move to the element; the script
    resetting its value; the keystrokes of the text; the synchroniser; any
    failure wrapped in [ActionFailed].  Whenever the method returns, the
    events it added are these five calls, made in this order on the
    element the wait returned, followed by what the synchroniser prints
    and sleeps. *)
Theorem input_text_procedure
    (env : Env) (index : Z) (text : string) (state : BrowserState)
    (xpath : string) (σ : Machine) (d : Conn) (σ0 : Machine) :
  selector_map state !! index = Some xpath →
  _get_driver env σ = (Ok d, σ0) →
  let r := input_text_by_index env index text state σ in
  r = Spec.input_text env d xpath text σ0 ∧
  (fst r = Ok tt →
   ∃ el evs,
     snd (reply env (trace σ0) (wait_until_clickable d 10 xpath "")) = Ok el ∧
     trace (snd r) = trace σ0 ++ (Driver <$> input_steps d xpath text el) ++ evs ∧
     driver_calls evs = []).
Proof.
  intros Hx Hd. cbv zeta. unfold input_text_by_index. rewrite Hx.
  rewrite (_input_text_by_xpath_spec env xpath text σ d σ0 Hd).
  split; [done|].
  pose proof (input_text_steps env xpath text d σ0 (_get_driver_ok env σ d σ0 Hd)) as H.
  cbv zeta in H.
  destruct (snd (reply env (trace σ0) (wait_until_clickable d 10 xpath ""))) as [el|e1];
    [|destruct H as [-> _]; done].
  destruct (snd (Spec.attempted env _ _)) as [cause|];
    [destruct H as [-> _]; done|].
  destruct H as (Hmade & _ & evs & Htr & Hevs). intros _.
  exists el, evs. split; [done|]. split; [|done].
  rewrite Htr, Hmade. unfold input_steps, Spec.input_actions.
  cbn [fmap list_fmap app]. reflexivity.
Qed.

(** C8 as stated fails: with a valid index on a fresh service whose
    browser cannot be launched, none of the steps is performed; the only
    call is the launch, and its failure is raised. *)
Lemma input_valid_index_launch_failure_runs_no_step :
  selector_map Worlds.page !! 0%Z = Some "//button[@id='submit']" ∧
  let r := input_text_by_index Worlds.no_browser 0 "hello" Worlds.page Worlds.fresh in
  fst r = Raise (Exception "chromedriver not found") ∧
  driver_calls (trace (snd r)) = [webdriver_Chrome false].
Proof. split; [by vm_compute|]. split; by vm_compute. Qed.

(** ** The session invariant *)


Lemma session_ok_happen e dt σ : session_ok σ → session_ok (happen e dt σ).
Proof. done. Qed.

Section Preservation.
Variable env : Env.

Lemma preserves_ret {A} (a : A) : preserves (ret a).
Proof. by intros σ. Qed.

Lemma preserves_raise {A} (e : Exn) : preserves (@raise A e).
Proof. by intros σ. Qed.

Lemma preserves_bind {A B} (m : M A) (k : A → M B) :
  preserves m → (∀ a, preserves (k a)) → preserves (bind m k).
Proof.
  intros Hm Hk σ Hσ. unfold bind. specialize (Hm σ Hσ).
  destruct (m σ) as [[a|e] σ']; [by apply Hk | done].
Qed.

Lemma preserves_try_except {A} (m : M A) (h : Exn → M A) :
  preserves m → (∀ e, preserves (h e)) → preserves (try_except m h).
Proof.
  intros Hm Hh σ Hσ. unfold try_except. specialize (Hm σ Hσ).
  destruct (m σ) as [[a|e] σ']; [done | by apply Hh].
Qed.

Lemma preserves_or_else (m : M Flow) (k : M unit) :
  preserves m → preserves k → preserves (or_else m k).
Proof.
  intros Hm Hk. apply preserves_bind; [done|].
  intros []; [apply preserves_ret | done].
Qed.

Lemma preserves_perform c : preserves (perform env c).
Proof.
  intros σ Hσ. rewrite perform_eq. by apply session_ok_happen.
Qed.

Lemma preserves_time_time : preserves (time_time env).
Proof. by intros σ. Qed.

Lemma preserves_time_sleep secs : preserves (time_sleep env secs).
Proof. intros σ Hσ. unfold time_sleep. by destruct (sleep_error secs). Qed.

Lemma preserves_print line : preserves (print env line).
Proof. by intros σ. Qed.

Lemma preserves_assign_current_state s : preserves (assign_current_state s).
Proof. by intros σ. Qed.

Lemma preserves_quit d : preserves (quit env d).
Proof.
  intros σ [Hlive Hnames]. unfold quit. rewrite perform_eq.
  destruct (snd (reply env _ _)); [|done].
  split; cbn -[Qplus]; [set_solver|].
  intros d' Hd'. apply Hnames. set_solver.
Qed.

Hypothesis Hstealth : stealth_ok env.

Lemma _get_driver_launch σ :
  driver σ = None →
  (∃ e σ', _get_driver env σ = (Raise e, σ') ∧ driver σ' = None ∧
           live σ' = live σ ∧ launched σ' = launched σ) ∨
  (∃ σ', _get_driver env σ = (Ok (launched σ), σ') ∧
         driver σ' = Some (launched σ) ∧
         live σ' = {[ launched σ ]} ∪ live σ ∧
         launched σ' = S (launched σ) ∧
         ∃ evs, trace σ' = trace σ ++ Driver (webdriver_Chrome (headless σ)) :: evs).
Proof.
  intros Hd.
  unfold _get_driver, init, launch, bind, self_driver, self_headless, assign_driver, ret.
  rewrite Hd, !perform_eq.
  destruct (snd (reply env (trace σ) _)) as [[]|e]; [|left; by eexists _, _].
  cbn -[Qplus]. rewrite perform_eq, Hstealth. cbn -[Qplus].
  right. eexists. split; [done|]. cbn -[Qplus]. repeat split; eauto.
  eexists. by rewrite <- app_assoc.
Qed.

Lemma preserves__get_driver : preserves (_get_driver env).
Proof.
  intros σ Hσ. destruct (driver σ) as [d|] eqn:Hd.
  - by rewrite (_get_driver_held _ _ _ Hd).
  - destruct Hσ as [Hlive Hnames]. unfold held in *. rewrite Hd in *.
    destruct (_get_driver_launch σ Hd) as [(e & σ' & -> & Hd' & Hl & Hn)|(σ' & -> & Hd' & Hl & Hn & _)];
      cbn [snd]; split; unfold held; rewrite ?Hd', ?Hl, ?Hn.
    + done.
    + intros d' ?. apply Hnames. set_solver.
    + set_solver.
    + intros d' Hin. assert (d' = launched σ) as -> by set_solver. lia.
Qed.

Lemma preserves_if {A} (b : bool) (m1 m2 : M A) :
  preserves m1 → preserves m2 → preserves (if b then m1 else m2).
Proof. by destruct b. Qed.

Ltac session_step :=
  first
    [ apply preserves_ret | apply preserves_raise
    | lazymatch goal with
      | |- preserves (perform _ ?c) => exact (preserves_perform c)
      end
    | apply preserves_time_time | apply preserves_time_sleep
    | apply preserves_print | apply preserves_assign_current_state
    | apply preserves__get_driver
    | apply preserves_or_else | apply preserves_try_except
    | apply preserves_bind | apply preserves_if
    | lazymatch goal with |- ∀ _, _ => intro end ].

Lemma preserves_wait_for_page_load : preserves (wait_for_page_load env).
Proof.
  unfold wait_for_page_load, poll_ready_state. repeat session_step.
Qed.

Lemma preserves_close : preserves (close env).
Proof.
  intros σ Hσ. unfold close, bind.
  pose proof (preserves__get_driver σ Hσ) as H1.
  destruct (_get_driver env σ) as [[d|e] σ1] eqn:Hd; [|done].
  apply _get_driver_ok in Hd. cbn [snd] in H1.
  pose proof (preserves_quit d σ1 H1) as H2.
  unfold quit in *. rewrite perform_eq in *.
  destruct (snd (reply env (trace σ1) _)); [|done].
  destruct H2 as [Hlive Hnames], H1 as [Hlive1 _]. unfold held in *.
  cbn -[Qplus] in *. rewrite Hd in *.
  split; cbn -[Qplus].
  - set_solver.
  - intros d' Hd'. apply Hnames. set_solver.
Qed.

Lemma preserves__click_element_by_xpath xpath :
  preserves (_click_element_by_xpath env xpath).
Proof.
  pose proof preserves_wait_for_page_load.
  unfold _click_element_by_xpath, _webdriver_wait, until_element_to_be_clickable.
  repeat (done || session_step).
Qed.

Lemma preserves__input_text_by_xpath xpath text :
  preserves (_input_text_by_xpath env xpath text).
Proof.
  pose proof preserves_wait_for_page_load.
  unfold _input_text_by_xpath, _webdriver_wait, until_element_to_be_clickable.
  repeat (done || session_step).
Qed.

Lemma preserves_run_op op : op ≠ op_init → preserves (run_op env op).
Proof.
  pose proof preserves_wait_for_page_load.
  intros Hop. destruct op; cbn [run_op]; try done.
  - unfold go_to_url. repeat (done || session_step).
  - unfold search_google. repeat (done || session_step).
  - unfold go_back. repeat (done || session_step).
  - unfold refresh. repeat (done || session_step).
  - unfold void, get_updated_state. repeat (done || session_step).
  - unfold click_element_by_index, time_execution_sync.
    destruct (selector_map state !! index);
      [apply preserves__click_element_by_xpath | apply preserves_raise].
  - unfold input_text_by_index.
    destruct (selector_map state !! index);
      [apply preserves__input_text_by_xpath | apply preserves_raise].
  - apply preserves_close.
Qed.

Lemma session_ok_run_ops ops σ :
  op_init ∉ ops → session_ok σ → session_ok (run_ops env ops σ).
Proof.
  revert σ. induction ops as [|op ops IH]; intros σ Hops Hσ; [done|].
  cbn [run_ops]. apply IH.
  - intros Hin. apply Hops. by right.
  - apply preserves_run_op; [|done]. intros ->. apply Hops. by left.
Qed.

End Preservation.

Lemma session_ok___init__ h t : session_ok (__init__ h t).
Proof. split; cbn; set_solver. Qed.

Lemma session_ok_size σ : session_ok σ → (size (live σ) <= 1)%nat.
Proof.
  intros [Hlive _]. unfold held in Hlive.
  apply subseteq_size in Hlive. destruct (driver σ).
  - by rewrite size_singleton in Hlive.
  - rewrite size_empty in Hlive. lia.
Qed.



(** ** Closing and discarding *)

(** C4 fails on the code.  The second of two [close()] in a row is not a
    no-operation: [close] obtains its driver through [_get_driver], so on a
    closed session it launches a new browser, injects the stealth script
    and quits that browser; and when no browser can be launched, closing a
    closed session raises. *)
Theorem close_on_closed_session_launches_browser :
  let twice := (close Worlds.calm ;; close Worlds.calm) Worlds.running in
  fst twice = Ok tt ∧
  driver_calls (trace (snd twice))
    = [driver_quit 0%nat; webdriver_Chrome false;
       driver_execute_cdp_cmd 1%nat; driver_quit 1%nat] ∧
  fst (close Worlds.no_browser Worlds.fresh) = Raise (Exception "chromedriver not found").
Proof. by vm_compute. Qed.

(** C9 as stated fails: two calls of the public [init()] leave two
    browsers alive, of which the service holds the second only. *)
Lemma init_twice_leaves_two_browsers :
  let σ := run_ops Worlds.calm [op_init; op_init] Worlds.fresh in
  driver σ = Some 1%nat ∧ elements (live σ) = [1%nat; 0%nat] ∧ size (live σ) = 2%nat.
Proof. by vm_compute. Qed.

Lemma close_ok (env : Env) σ σ1 :
  stealth_ok env → session_ok σ →
  close env σ = (Ok tt, σ1) → driver σ1 = None ∧ live σ1 = ∅.
Proof.
  intros Hs Hσ. unfold close, bind.
  pose proof (preserves__get_driver env Hs σ Hσ) as H1.
  destruct (_get_driver env σ) as [[d|e] σa] eqn:Hd; [|done].
  apply _get_driver_ok in Hd. cbn [snd] in H1.
  unfold quit. rewrite perform_eq.
  destruct (snd (reply env (trace σa) _)); [|done].
  unfold assign_driver. intros [= <-]. cbn -[Qplus].
  split; [done|]. destruct H1 as [Hlive _]. unfold held in Hlive.
  rewrite Hd in Hlive. set_solver.
Qed.

(** C9, amended.  A new service holds no driver and no browser is alive.
    After any sequence of operations that does not call [init()] directly,
    in a world where the stealth injection succeeds, a live browser is the
    one the service holds, so at most one is alive; a held driver is
    reused without a launch; after a [close()] that returned, the service
    holds none, none is alive, and the next use launches a browser that is
    different from every earlier one. *)
Theorem session_holds_at_most_one_connection
    (env : Env) (ops : list Op) (headless_ : bool) (t : Q) :
  stealth_ok env →
  op_init ∉ ops →
  driver (__init__ headless_ t) = None ∧ live (__init__ headless_ t) = ∅ ∧
  let σ := run_ops env ops (__init__ headless_ t) in
  live σ ⊆ held σ ∧ (size (live σ) <= 1)%nat ∧
  (∀ d, driver σ = Some d → _get_driver env σ = (Ok d, σ)) ∧
  (∀ σ1, close env σ = (Ok tt, σ1) →
     driver σ1 = None ∧ live σ1 = ∅ ∧
     ∀ d' σ2, _get_driver env σ1 = (Ok d', σ2) →
       d' = launched σ1 ∧ (∀ d, d ∈ live σ ∪ held σ → d ≠ d') ∧
       driver σ2 = Some d' ∧ live σ2 = {[ d' ]}).
Proof.
  intros Hs Hops. split; [done|]. split; [done|]. cbv zeta.
  set (σ := run_ops env ops (__init__ headless_ t)).
  assert (session_ok σ) as Hσ.
  { apply session_ok_run_ops; [done..|]. apply session_ok___init__. }
  split; [apply Hσ|]. split; [by apply session_ok_size|].
  split; [intros d Hd; by apply _get_driver_held|].
  intros σ1 Hclose.
  destruct (close_ok env σ σ1 Hs Hσ Hclose) as [Hd1 Hl1].
  split; [done|]. split; [done|]. intros d' σ2 Hget.
  pose proof (preserves_close env Hs σ Hσ) as Hσ1. rewrite Hclose in Hσ1.
  cbn [snd] in Hσ1.
  assert (launched σ <= launched σ1)%nat as Hmono.
  { clear -Hclose Hs. unfold close, bind in Hclose.
    destruct (driver σ) as [d|] eqn:Hd.
    - rewrite (_get_driver_held _ _ _ Hd) in Hclose.
      unfold quit in Hclose. rewrite perform_eq in Hclose.
      destruct (snd (reply env (trace σ) _)); [|done].
      injection Hclose as <-. cbn -[Qplus]. lia.
    - destruct (_get_driver_launch env Hs σ Hd)
        as [(e & σ' & Hg & _)|(σ' & Hg & _ & _ & Hn & _)];
        rewrite Hg in Hclose; [done|].
      unfold quit in Hclose. rewrite perform_eq in Hclose.
      destruct (snd (reply env (trace σ') _)); [|done].
      injection Hclose as <-. cbn -[Qplus]. lia. }
  destruct (_get_driver_launch env Hs σ1 Hd1)
    as [(e & σ' & Hg & _)|(σ' & Hg & Hd' & Hl' & _)];
    rewrite Hg in Hget; [done|].
  injection Hget as <- <-. split; [done|]. split.
  - intros d Hin. destruct Hσ as [_ Hnames]. specialize (Hnames d Hin). lia.
  - split; [done|]. rewrite Hl', Hl1. set_solver.
Qed.

(** C10.  When a service that holds a driver is discarded, the finalizer
    runs [close()]: the driver is told to quit.  The discard never raises:
    if [close()] returned, the service is closed; if [close()] raised, the
    exception leaves [__del__] and is reported by the interpreter, not
    propagated. *)
Theorem discard_closes_and_swallows (env : Env) (σ : Machine) (d : Conn) :
  driver σ = Some d →
  fst (discard env σ) = Ok tt ∧
  (∃ evs, trace (snd (discard env σ)) = trace σ ++ Driver (driver_quit d) :: evs) ∧
  (fst (close env σ) = Ok tt →
     snd (discard env σ) = snd (close env σ) ∧
     driver (snd (discard env σ)) = None) ∧
  (∀ e, fst (close env σ) = Raise e →
     fst (__del__ env σ) = Raise e ∧
     trace (snd (discard env σ)) = trace (snd (close env σ)) ++ [Unraisable e]).
Proof.
  intros Hd.
  unfold discard, try_except, __del__, bind, self_driver. rewrite Hd.
  cbn beta iota.
  unfold close, bind, quit. rewrite (_get_driver_held _ _ _ Hd), perform_eq.
  destruct (snd (reply env (trace σ) (driver_quit d))) as [[]|e];
    cbn -[Qplus].
  - split; [done|]. split; [by exists []|]. split; [done|]. by intros e [=].
  - split; [done|]. split.
    + eexists. by rewrite <- app_assoc.
    + split; [by intros [=] | by intros e' [= <-]].
Qed.

Lemma __del__propagates_quit_failure :
  fst (__del__ Worlds.stuck_quit Worlds.running)
    = Raise (Exception "connection refused").
Proof. by vm_compute. Qed.


(** ** The theorems at concrete inputs *)

Lemma absent_index_witness :
  selector_map Worlds.page !! 5%Z = None ∧
  click_element_by_index Worlds.calm 5 Worlds.page Worlds.fresh
    = (Raise (ElementNotFound 5), Worlds.fresh) ∧
  input_text_by_index Worlds.calm 5 "hello" Worlds.page Worlds.fresh
    = (Raise (ElementNotFound 5), Worlds.fresh) ∧
  ∀ j, ElementNotFound j = ElementNotFound 5 → j = 5%Z.
Proof.
  assert (H : selector_map Worlds.page !! 5%Z = None) by (vm_compute; reflexivity).
  split; [exact H|].
  exact (absent_index_raises_without_interaction
           Worlds.calm 5 "hello" Worlds.page Worlds.fresh H).
Defined.

Lemma click_valid_index_witness :
  let r := fst (click_element_by_index Worlds.dead_page 0 Worlds.page Worlds.running) in
  (r = Ok tt ∨
   ∃ cause, r = Raise (ActionFailed CLICK "//button[@id='submit']" cause)) ∧
  ∀ i, r ≠ Raise (ElementNotFound i).
Proof.
  apply (click_valid_index_outcome Worlds.dead_page 0 Worlds.page
           "//button[@id='submit']" Worlds.running 0%nat Worlds.running).
  - vm_compute; reflexivity.
  - vm_compute; reflexivity.
Defined.



Lemma input_text_single_attempt_witness :
  let r := input_text_by_index Worlds.dead_page 0 "hello" Worlds.page Worlds.running in
  fst r = Raise (ActionFailed INPUT "//button[@id='submit']" "timeout") ∧
  trace (snd r)
  = trace Worlds.running
    ++ [Driver (wait_until_clickable 0%nat 10 "//button[@id='submit']" "")].
Proof.
  apply (input_text_single_attempt Worlds.dead_page 0 "hello" Worlds.page
           "//button[@id='submit']" Worlds.running 0%nat Worlds.running).
  - vm_compute; reflexivity.
  - vm_compute; reflexivity.
Defined.

Lemma input_text_procedure_witness :
  let r := input_text_by_index Worlds.calm 0 "hello" Worlds.page Worlds.running in
  r = Spec.input_text Worlds.calm 0%nat "//button[@id='submit']" "hello" Worlds.running ∧
  (fst r = Ok tt →
   ∃ el evs,
     snd (reply Worlds.calm (trace Worlds.running)
            (wait_until_clickable 0%nat 10 "//button[@id='submit']" "")) = Ok el ∧
     trace (snd r)
     = trace Worlds.running
       ++ (Driver <$> input_steps 0%nat "//button[@id='submit']" "hello" el) ++ evs ∧
     driver_calls evs = []).
Proof.
  apply (input_text_procedure Worlds.calm 0 "hello" Worlds.page
           "//button[@id='submit']" Worlds.running 0%nat Worlds.running).
  - vm_compute; reflexivity.
  - vm_compute; reflexivity.
Defined.

Lemma calm_stealth_ok : stealth_ok Worlds.calm.
Proof. intros h d. reflexivity. Defined.

Lemma session_witness :
  let ops := [op_go_to_url "http://localhost/"; op_close; op_close;
              op_get_updated_state; op_click_element_by_index 0 Worlds.page] in
  let σ := run_ops Worlds.calm ops (__init__ false 0) in
  live σ ⊆ held σ ∧ (size (live σ) <= 1)%nat.
Proof.
  cbv zeta.
  pose proof (session_holds_at_most_one_connection Worlds.calm
    [op_go_to_url "http://localhost/"; op_close; op_close;
     op_get_updated_state; op_click_element_by_index 0 Worlds.page]
    false 0 calm_stealth_ok) as H.
  assert (Hops : op_init ∉
    [op_go_to_url "http://localhost/"; op_close; op_close;
     op_get_updated_state; op_click_element_by_index 0 Worlds.page]).
  { intros Hin. repeat (apply elem_of_cons in Hin as [Hin|Hin]; [discriminate Hin|]).
    by apply elem_of_nil in Hin. }
  destruct (H Hops) as (_ & _ & Hlive & Hsize & _).
  split; [exact Hlive | exact Hsize].
Defined.

Lemma discard_witness :
  fst (discard Worlds.stuck_quit Worlds.running) = Ok tt ∧
  ∃ evs, trace (snd (discard Worlds.stuck_quit Worlds.running))
         = trace Worlds.running ++ Driver (driver_quit 0%nat) :: evs.
Proof.
  destruct (discard_closes_and_swallows Worlds.stuck_quit Worlds.running 0%nat)
    as (H1 & H2 & _).
  - reflexivity.
  - split; [exact H1 | exact H2].
Defined.

(** * Further properties of the service *)

(** ** The stored snapshot *)

Section Snapshot.

Variable env : Env.

Lemma keeps_snapshot_ret {A} (a : A) : keeps_snapshot (ret a).
Proof. by intros σ. Qed.

Lemma keeps_snapshot_raise {A} (e : Exn) : keeps_snapshot (@raise A e).
Proof. by intros σ. Qed.

Lemma keeps_snapshot_bind {A B} (m : M A) (k : A → M B) :
  keeps_snapshot m → (∀ a, keeps_snapshot (k a)) → keeps_snapshot (bind m k).
Proof.
  intros Hm Hk σ. unfold bind. specialize (Hm σ).
  destruct (m σ) as [[a|e] σ']; [|done]. cbn [snd] in Hm.
  by rewrite Hk.
Qed.

Lemma keeps_snapshot_try_except {A} (m : M A) (h : Exn → M A) :
  keeps_snapshot m → (∀ e, keeps_snapshot (h e)) →
  keeps_snapshot (try_except m h).
Proof.
  intros Hm Hh σ. unfold try_except. specialize (Hm σ).
  destruct (m σ) as [[a|e] σ']; [done|]. cbn [snd] in Hm.
  by rewrite Hh.
Qed.

Lemma keeps_snapshot_or_else (m : M Flow) (k : M unit) :
  keeps_snapshot m → keeps_snapshot k → keeps_snapshot (or_else m k).
Proof.
  intros Hm Hk. apply keeps_snapshot_bind; [done|].
  intros []; [apply keeps_snapshot_ret | done].
Qed.

Lemma keeps_snapshot_if {A} (b : bool) (m1 m2 : M A) :
  keeps_snapshot m1 → keeps_snapshot m2 →
  keeps_snapshot (if b then m1 else m2).
Proof. by destruct b. Qed.

Lemma keeps_snapshot_perform c : keeps_snapshot (perform env c).
Proof. intros σ. by rewrite perform_eq. Qed.

Lemma keeps_snapshot_time_time : keeps_snapshot (time_time env).
Proof. by intros σ. Qed.

Lemma keeps_snapshot_time_sleep secs : keeps_snapshot (time_sleep env secs).
Proof. intros σ. unfold time_sleep. by destruct (sleep_error secs). Qed.

Lemma keeps_snapshot_print line : keeps_snapshot (print env line).
Proof. by intros σ. Qed.

Lemma keeps_snapshot_self_driver : keeps_snapshot self_driver.
Proof. by intros σ. Qed.

Lemma keeps_snapshot_self_headless : keeps_snapshot self_headless.
Proof. by intros σ. Qed.

Lemma keeps_snapshot_assign_driver d : keeps_snapshot (assign_driver d).
Proof. by intros σ. Qed.

Lemma keeps_snapshot_launch h : keeps_snapshot (launch env h).
Proof.
  intros σ. unfold launch. rewrite perform_eq.
  by destruct (snd (reply env (trace σ) _)).
Qed.

Lemma keeps_snapshot_quit d : keeps_snapshot (quit env d).
Proof.
  intros σ. unfold quit. rewrite perform_eq.
  by destruct (snd (reply env (trace σ) _)).
Qed.

Ltac snapshot_step :=
  first
    [ apply keeps_snapshot_ret | apply keeps_snapshot_raise
    | lazymatch goal with
      | |- keeps_snapshot (perform _ ?c) => exact (keeps_snapshot_perform c)
      end
    | apply keeps_snapshot_time_time | apply keeps_snapshot_time_sleep
    | apply keeps_snapshot_print | apply keeps_snapshot_self_driver
    | apply keeps_snapshot_self_headless | apply keeps_snapshot_assign_driver
    | apply keeps_snapshot_launch | apply keeps_snapshot_quit
    | apply keeps_snapshot_or_else | apply keeps_snapshot_try_except
    | apply keeps_snapshot_bind | apply keeps_snapshot_if
    | lazymatch goal with |- ∀ _, _ => intro end
    | lazymatch goal with
      | |- keeps_snapshot (match ?x with _ => _ end) => destruct x
      end ].

Lemma keeps_snapshot_init : keeps_snapshot (init env).
Proof. unfold init. repeat snapshot_step. Qed.

Lemma keeps_snapshot__get_driver : keeps_snapshot (_get_driver env).
Proof.
  pose proof keeps_snapshot_init.
  unfold _get_driver. repeat (done || snapshot_step).
Qed.

Lemma keeps_snapshot_wait_for_page_load : keeps_snapshot (wait_for_page_load env).
Proof.
  pose proof keeps_snapshot__get_driver.
  unfold wait_for_page_load, poll_ready_state. repeat (done || snapshot_step).
Qed.

Lemma keeps_snapshot_close : keeps_snapshot (close env).
Proof.
  pose proof keeps_snapshot__get_driver.
  unfold close. repeat (done || snapshot_step).
Qed.

Lemma keeps_snapshot_run_op op :
  op ≠ op_get_updated_state → keeps_snapshot (run_op env op).
Proof.
  pose proof keeps_snapshot_init. pose proof keeps_snapshot__get_driver.
  pose proof keeps_snapshot_wait_for_page_load. pose proof keeps_snapshot_close.
  intros Hop. destruct op; cbn [run_op]; try done.
  - unfold void. repeat (done || snapshot_step).
  - unfold go_to_url. repeat (done || snapshot_step).
  - unfold search_google. repeat (done || snapshot_step).
  - unfold go_back. repeat (done || snapshot_step).
  - unfold refresh. repeat (done || snapshot_step).
  - unfold click_element_by_index, time_execution_sync,
      _click_element_by_xpath, _webdriver_wait, until_element_to_be_clickable.
    repeat (done || snapshot_step).
  - unfold input_text_by_index, _input_text_by_xpath, _webdriver_wait,
      until_element_to_be_clickable.
    repeat (done || snapshot_step).
Qed.

End Snapshot.

(** X1.  Only [get_updated_state] touches the snapshot the service
    remembers: after any sequence of the other operations, whether they
    return or raise, [self.current_state] is what it was, however the page
    has changed in between. *)
Theorem only_get_updated_state_refreshes_snapshot
    (env : Env) (ops : list Op) (σ : Machine) :
  op_get_updated_state ∉ ops →
  current_state (run_ops env ops σ) = current_state σ.
Proof.
  revert σ. induction ops as [|op ops IH]; intros σ Hops; [done|].
  cbn [run_ops]. rewrite IH.
  - apply keeps_snapshot_run_op. intros ->. apply Hops. by left.
  - intros Hin. apply Hops. by right.
Qed.

Lemma only_get_updated_state_refreshes_snapshot_witness :
  current_state
    (run_ops Worlds.calm
       [op_go_to_url "http://localhost/next"; op_click_element_by_index 0 Worlds.page;
        op_close]
       MoreWorlds.informed)
  = current_state MoreWorlds.informed.
Proof.
  apply (only_get_updated_state_refreshes_snapshot Worlds.calm
           [op_go_to_url "http://localhost/next";
            op_click_element_by_index 0 Worlds.page; op_close]
           MoreWorlds.informed).
  intros Hin. repeat (apply elem_of_cons in Hin as [Hin|Hin]; [discriminate Hin|]).
  by apply elem_of_nil in Hin.
Defined.

(** ** Navigation *)

(** The shape shared by [go_to_url], [search_google], [go_back] and
    [refresh]: ask for the driver, send one request, synchronise. *)
Lemma navigate (env : Env) (request : Conn → Call) σ d σ0 :
  _get_driver env σ = (Ok d, σ0) →
  let r := (driver <- _get_driver env ;;
            perform env (request driver) ;;
            wait_for_page_load env) σ in
  let σ1 := happen (Driver (request d))
              (seconds (fst (reply env (trace σ0) (request d)))) σ0 in
  match snd (reply env (trace σ0) (request d)) with
  | Ok _ => r = Spec.synchronise env d σ1
  | Raise e => r = (Raise e, σ1)
  end.
Proof.
  intros Hd. pose proof (_get_driver_ok _ _ _ _ Hd) as Hheld. cbv zeta.
  rewrite (bind_ok _ _ _ _ _ Hd). unfold bind. rewrite perform_eq.
  destruct (snd (reply env (trace σ0) (request d))); [|done].
  by apply wait_for_page_load_eq.
Qed.

Lemma run_op_navigation (env : Env) (op : Op) (c : Call) σ d :
  navigation_call op d = Some c →
  ∃ request : Conn → Call,
    request d = c ∧
    run_op env op σ = (driver <- _get_driver env ;;
                       perform env (request driver) ;;
                       wait_for_page_load env) σ.
Proof.
  destruct op; intros [= <-].
  - by exists (fun d => driver_get d address).
  - by exists (fun d => driver_get d ("https://www.google.com/search?q=" +:+ query)).
  - by exists driver_back.
  - by exists driver_refresh.
Qed.

(** X2.  Each of the four navigation methods, once the driver is
    available, sends its one request to the browser and then runs the
    synchroniser, in this order: the calls made are the request and the
    readiness poll.  When the request raises, that exception is raised
    unchanged and nothing follows: no poll, no print, no sleep. *)
Theorem navigation_requests_then_synchronises
    (env : Env) (op : Op) (c : Call) (σ : Machine) (d : Conn) (σ0 : Machine) :
  navigation_call op d = Some c →
  _get_driver env σ = (Ok d, σ0) →
  let r := run_op env op σ in
  let σ1 := happen (Driver c) (seconds (fst (reply env (trace σ0) c))) σ0 in
  ∃ evs, trace (snd r) = trace σ0 ++ evs ∧
    match snd (reply env (trace σ0) c) with
    | Ok _ =>
        r = Spec.synchronise env d σ1 ∧
        driver_calls evs = [c; wait_until_ready d 5]
    | Raise e => r = (Raise e, σ1) ∧ evs = [Driver c]
    end.
Proof.
  intros Hnav Hd. cbv zeta.
  destruct (run_op_navigation env op c σ d Hnav) as (request & <- & ->).
  pose proof (navigate env request σ d σ0 Hd) as H. cbv zeta in H.
  destruct (snd (reply env (trace σ0) (request d))) as [v|e]; rewrite H.
  - match goal with
    | |- context [Spec.synchronise env d ?s] =>
        destruct (synchronise_footprint env d s) as (evs & -> & Hevs & _)
    end.
    eexists. cbn [trace happen]. rewrite <- app_assoc. split; [reflexivity|].
    split; [done|]. cbn [app driver_calls omap list_omap].
    fold (driver_calls evs). by rewrite Hevs.
  - by exists [Driver (request d)].
Qed.

Lemma navigation_requests_then_synchronises_witness :
  let r := run_op MoreWorlds.offline (op_search_google "rocq") Worlds.running in
  let c := driver_get 0%nat "https://www.google.com/search?q=rocq" in
  let σ1 := happen (Driver c)
              (seconds (fst (reply MoreWorlds.offline (trace Worlds.running) c)))
              Worlds.running in
  ∃ evs, trace (snd r) = trace Worlds.running ++ evs ∧
    match snd (reply MoreWorlds.offline (trace Worlds.running) c) with
    | Ok _ =>
        r = Spec.synchronise MoreWorlds.offline 0%nat σ1 ∧
        driver_calls evs = [c; wait_until_ready 0%nat 5]
    | Raise e => r = (Raise e, σ1) ∧ evs = [Driver c]
    end.
Proof.
  apply (navigation_requests_then_synchronises MoreWorlds.offline
           (op_search_google "rocq")
           (driver_get 0%nat "https://www.google.com/search?q=rocq")
           Worlds.running 0%nat Worlds.running).
  - reflexivity.
  - vm_compute; reflexivity.
Defined.

(** ** Lifecycle *)

(** The three ways [init] ends. *)
Lemma init_cases (env : Env) (σ : Machine) :
  let chrome := webdriver_Chrome (headless σ) in
  let σ1 := happen (Driver chrome) (seconds (fst (reply env (trace σ) chrome))) σ in
  let d := launched σ in
  let σ2 := set_launched (S d) (set_live ({[ d ]} ∪ live σ) σ1) in
  let cdp := driver_execute_cdp_cmd d in
  let σ3 := happen (Driver cdp) (seconds (fst (reply env (trace σ2) cdp))) σ2 in
  match snd (reply env (trace σ) chrome) with
  | Raise e => init env σ = (Raise e, σ1)
  | Ok _ =>
      match snd (reply env (trace σ2) cdp) with
      | Raise e => init env σ = (Raise e, σ3)
      | Ok _ => init env σ = (Ok d, set_driver (Some d) σ3)
      end
  end.
Proof.
  cbv zeta. unfold init, launch, bind, self_headless, assign_driver, ret.
  rewrite perform_eq.
  destruct (snd (reply env (trace σ) (webdriver_Chrome (headless σ)))) as [[]|e];
    [|done].
  cbn -[Qplus]. rewrite perform_eq. cbn -[Qplus].
  match goal with
  | |- context [match ?x with _ => _ end] =>
      match x with snd (reply _ _ _) => by destruct x as [[]|e] end
  end.
Qed.

Lemma _get_driver_raise (env : Env) σ e σ0 :
  _get_driver env σ = (Raise e, σ0) →
  driver σ = None ∧ init env σ = (Raise e, σ0).
Proof.
  unfold _get_driver, bind, self_driver.
  destruct (driver σ) as [d|]; [done|].
  destruct (init env σ) as [[d|e'] σ']; [done|]. by intros [= <- <-].
Qed.

Lemma run_op_starts_with_driver (env : Env) (op : Op) σ e σ0 :
  starts_with_driver op = true →
  _get_driver env σ = (Raise e, σ0) →
  run_op env op σ = (Raise e, σ0).
Proof.
  intros Hop Hd. destruct op; cbn [run_op starts_with_driver] in *.
  - apply _get_driver_raise in Hd as [_ Hd]. unfold void, bind. by rewrite Hd.
  - unfold go_to_url. by apply bind_raise.
  - unfold search_google. by apply bind_raise.
  - unfold go_back. by apply bind_raise.
  - unfold refresh. by apply bind_raise.
  - unfold void, get_updated_state. apply bind_raise. by apply bind_raise.
  - apply bool_decide_eq_true_1 in Hop as [xpath Hx].
    by apply (_get_driver_failure_click env index state xpath).
  - apply bool_decide_eq_true_1 in Hop as [xpath Hx].
    by apply (_get_driver_failure_input env index text state xpath).
  - unfold close. by apply bind_raise.
Qed.

(** X3.  When the browser cannot be started, every operation that needs
    it (all of them, but a click or an input at an index the snapshot does
    not have) raises the error of the start unchanged, and has done nothing
    but try to start the browser: the service still holds no driver, its
    snapshot is untouched and the only calls made are the launch and, if
    the launch went through, the stealth injection. *)
Theorem operation_fails_when_browser_cannot_start
    (env : Env) (op : Op) (σ : Machine) (e : Exn) (σ0 : Machine) :
  starts_with_driver op = true →
  _get_driver env σ = (Raise e, σ0) →
  run_op env op σ = (Raise e, σ0) ∧
  driver σ0 = None ∧ current_state σ0 = current_state σ ∧
  (driver_calls (trace σ0)
   = driver_calls (trace σ) ++ [webdriver_Chrome (headless σ)] ∨
   driver_calls (trace σ0)
   = driver_calls (trace σ)
     ++ [webdriver_Chrome (headless σ); driver_execute_cdp_cmd (launched σ)]).
Proof.
  intros Hop Hd. split; [by apply run_op_starts_with_driver|].
  apply _get_driver_raise in Hd as [Hnone Hinit].
  pose proof (init_cases env σ) as H. cbv zeta in H.
  unfold driver_calls.
  destruct (snd (reply env (trace σ) (webdriver_Chrome (headless σ)))) as [[]|e1].
  - match type of H with
    | context [match ?x with _ => _ end] =>
        match x with snd (reply _ _ _) => destruct x as [[]|e2] end
    end; rewrite Hinit in H; [done|].
    injection H as _ ->. cbn -[Qplus]. split; [done|]. split; [done|].
    right. by rewrite !omap_app, <- app_assoc.
  - rewrite Hinit in H. injection H as _ ->. cbn -[Qplus].
    split; [done|]. split; [done|]. left. by rewrite omap_app.
Qed.

Lemma operation_fails_when_browser_cannot_start_witness :
  let σ0 := snd (_get_driver Worlds.no_browser Worlds.fresh) in
  run_op Worlds.no_browser (op_click_element_by_index 0 Worlds.page) Worlds.fresh
    = (Raise (Exception "chromedriver not found"), σ0) ∧
  driver σ0 = None ∧ current_state σ0 = current_state Worlds.fresh ∧
  (driver_calls (trace σ0)
   = driver_calls (trace Worlds.fresh) ++ [webdriver_Chrome (headless Worlds.fresh)] ∨
   driver_calls (trace σ0)
   = driver_calls (trace Worlds.fresh)
     ++ [webdriver_Chrome (headless Worlds.fresh);
         driver_execute_cdp_cmd (launched Worlds.fresh)]).
Proof.
  apply (operation_fails_when_browser_cannot_start Worlds.no_browser
           (op_click_element_by_index 0 Worlds.page) Worlds.fresh
           (Exception "chromedriver not found")
           (snd (_get_driver Worlds.no_browser Worlds.fresh))).
  - vm_compute; reflexivity.
  - vm_compute; reflexivity.
Defined.

(** X4.  A browser that was launched but refused the stealth script is
    lost: the operation raises the refusal, the service holds no driver,
    nothing has asked the new browser to quit, and it is still running.
    The next operation will launch another one. *)
Theorem refused_stealth_script_orphans_browser
    (env : Env) (op : Op) (σ : Machine) (e : Exn) :
  starts_with_driver op = true →
  driver σ = None →
  snd (reply env (trace σ) (webdriver_Chrome (headless σ))) = Ok tt →
  snd (reply env (trace σ ++ [Driver (webdriver_Chrome (headless σ))])
         (driver_execute_cdp_cmd (launched σ))) = Raise e →
  let r := run_op env op σ in
  fst r = Raise e ∧ driver (snd r) = None ∧
  launched σ ∈ live (snd r) ∧
  driver_calls (trace (snd r))
  = driver_calls (trace σ)
    ++ [webdriver_Chrome (headless σ); driver_execute_cdp_cmd (launched σ)] ∧
  ¬ session_ok (snd r).
Proof.
  intros Hop Hnone Hchrome Hcdp. cbv zeta.
  pose proof (init_cases env σ) as H. cbv zeta in H.
  rewrite Hchrome in H. cbn [trace happen set_launched set_live] in H.
  rewrite Hcdp in H.
  match type of H with
  | _ = (_, ?s) => assert (_get_driver env σ = (Raise e, s)) as Hd
  end.
  { unfold _get_driver, bind, self_driver. rewrite Hnone, H. reflexivity. }
  rewrite (run_op_starts_with_driver env op σ e _ Hop Hd).
  cbn -[Qplus]. split; [done|]. split; [done|]. split; [set_solver|].
  split; [unfold driver_calls; by rewrite !omap_app, <- app_assoc|].
  intros [Hlive _]. unfold held in Hlive. cbn -[Qplus] in Hlive.
  rewrite Hnone in Hlive. set_solver.
Qed.

Lemma refused_stealth_script_orphans_browser_witness :
  let r := run_op MoreWorlds.no_stealth (op_go_to_url "http://localhost/") Worlds.fresh in
  fst r = Raise (Exception "cdp refused") ∧ driver (snd r) = None ∧
  launched Worlds.fresh ∈ live (snd r) ∧
  driver_calls (trace (snd r))
  = driver_calls (trace Worlds.fresh)
    ++ [webdriver_Chrome (headless Worlds.fresh);
        driver_execute_cdp_cmd (launched Worlds.fresh)] ∧
  ¬ session_ok (snd r).
Proof.
  apply (refused_stealth_script_orphans_browser MoreWorlds.no_stealth
           (op_go_to_url "http://localhost/") Worlds.fresh (Exception "cdp refused")).
  - reflexivity.
  - reflexivity.
  - vm_compute; reflexivity.
  - vm_compute; reflexivity.
Defined.

(** X5.  [init] never reuses and never quits: whenever it returns, the
    driver it returns is a browser launched by this very call, with the
    stealth script injected, and it is the one the service holds from then
    on.  The browsers that were running before are still running, so on a
    service in order the number of running browsers has grown by one. *)
Theorem init_launches_a_new_browser
    (env : Env) (σ : Machine) (d : Conn) (σ' : Machine) :
  init env σ = (Ok d, σ') →
  d = launched σ ∧ driver σ' = Some d ∧ live σ' = {[ d ]} ∪ live σ ∧
  trace σ'
  = trace σ ++ [Driver (webdriver_Chrome (headless σ));
                Driver (driver_execute_cdp_cmd d)] ∧
  (session_ok σ → (d ∉ live σ) ∧ size (live σ') = S (size (live σ))).
Proof.
  intros Hinit. pose proof (init_cases env σ) as H. cbv zeta in H.
  destruct (snd (reply env (trace σ) (webdriver_Chrome (headless σ)))) as [[]|e1];
    [|congruence].
  match type of H with
  | context [match ?x with _ => _ end] =>
      match x with snd (reply _ _ _) => destruct x as [[]|e2] end
  end; [|congruence].
  rewrite Hinit in H. injection H as -> ->. cbn -[Qplus].
  split; [done|]. split; [done|]. split; [done|].
  split; [by rewrite <- app_assoc|].
  intros [_ Hfresh].
  assert (launched σ ∉ live σ) as Hnew.
  { intros Hin. assert (launched σ < launched σ)%nat; [|lia].
    apply Hfresh. set_solver. }
  split; [done|]. rewrite size_union by set_solver. by rewrite size_singleton.
Qed.

Lemma init_launches_a_new_browser_witness :
  1%nat = launched Worlds.running ∧
  driver (snd (init Worlds.calm Worlds.running)) = Some 1%nat ∧
  live (snd (init Worlds.calm Worlds.running)) = {[ 1%nat ]} ∪ live Worlds.running ∧
  trace (snd (init Worlds.calm Worlds.running))
  = trace Worlds.running ++ [Driver (webdriver_Chrome (headless Worlds.running));
                             Driver (driver_execute_cdp_cmd 1%nat)] ∧
  (session_ok Worlds.running →
   (1%nat ∉ live Worlds.running) ∧
   size (live (snd (init Worlds.calm Worlds.running)))
   = S (size (live Worlds.running))).
Proof.
  apply (init_launches_a_new_browser Worlds.calm Worlds.running 1%nat
           (snd (init Worlds.calm Worlds.running))).
  vm_compute; reflexivity.
Defined.

(** X6.  [close] on a service that holds a driver asks that driver to
    quit and makes no other call; no browser is launched.  When the quit
    returns the service holds nothing and the browser is gone; when the quit
    raises, the exception is raised unchanged and the assignment that
    follows is skipped: the service still holds the driver. *)
Theorem close_on_held_driver (env : Env) (σ : Machine) (d : Conn) :
  driver σ = Some d →
  let r := close env σ in
  trace (snd r) = trace σ ++ [Driver (driver_quit d)] ∧
  launched (snd r) = launched σ ∧
  match snd (reply env (trace σ) (driver_quit d)) with
  | Ok _ => fst r = Ok tt ∧ driver (snd r) = None ∧ live (snd r) = live σ ∖ {[ d ]}
  | Raise e => fst r = Raise e ∧ driver (snd r) = Some d ∧ live (snd r) = live σ
  end.
Proof.
  intros Hd. cbv zeta. unfold close.
  rewrite (bind_ok _ _ _ _ _ (_get_driver_held env σ d Hd)).
  unfold bind, quit, assign_driver. rewrite perform_eq.
  by destruct (snd (reply env (trace σ) (driver_quit d))) as [[]|e].
Qed.

Lemma close_on_held_driver_witness :
  let r := close Worlds.stuck_quit Worlds.running in
  trace (snd r) = trace Worlds.running ++ [Driver (driver_quit 0%nat)] ∧
  launched (snd r) = launched Worlds.running ∧
  match snd (reply Worlds.stuck_quit (trace Worlds.running) (driver_quit 0%nat)) with
  | Ok _ => fst r = Ok tt ∧ driver (snd r) = None
            ∧ live (snd r) = live Worlds.running ∖ {[ 0%nat ]}
  | Raise e => fst r = Raise e ∧ driver (snd r) = Some 0%nat
               ∧ live (snd r) = live Worlds.running
  end.
Proof.
  apply (close_on_held_driver Worlds.stuck_quit Worlds.running 0%nat).
  reflexivity.
Defined.

(** X7.  The finalizer never starts a browser.  On a service that holds
    no driver [__del__] does nothing at all, where [close] would launch a
    browser to quit it; on any service, none of the events it adds is a
    launch, and it leaves the service without a driver unless the quit
    raised. *)
Theorem finalizer_never_launches (env : Env) (σ : Machine) :
  (driver σ = None → __del__ env σ = (Ok tt, σ)) ∧
  ∃ evs, trace (snd (__del__ env σ)) = trace σ ++ evs ∧
    forallb (fun ev => negb (is_launch ev)) evs = true ∧
    launched (snd (__del__ env σ)) = launched σ ∧
    (fst (__del__ env σ) = Ok tt → driver (snd (__del__ env σ)) = None).
Proof.
  unfold __del__, bind, self_driver.
  destruct (driver σ) as [d|] eqn:Hd.
  - split; [done|]. cbn beta iota.
    unfold close. rewrite (bind_ok _ _ _ _ _ (_get_driver_held env σ d Hd)).
    unfold bind, quit, assign_driver. rewrite perform_eq.
    exists [Driver (driver_quit d)].
    by destruct (snd (reply env (trace σ) (driver_quit d))) as [[]|e].
  - split; [done|]. exists []. cbn. by rewrite app_nil_r.
Qed.

(** ** The snapshot *)

(** X8.  [get_updated_state] is all or nothing.  When it returns a
    snapshot, that snapshot is the one the service remembers from then on,
    its items and its selector map come from one and the same reading of
    the page, and the calls made were that reading, the address and the
    title, in this order.  When it raises, the snapshot remembered before
    is still there: nothing is stored by halves. *)
Theorem get_updated_state_stores_what_it_returns (env : Env) (σ : Machine) :
  let r := get_updated_state env σ in
  match fst r with
  | Ok s =>
      current_state (snd r) = Some s ∧
      ∃ d σ0 content,
        _get_driver env σ = (Ok d, σ0) ∧
        snd (reply env (trace σ0) (dom_get_clickable_elements d)) = Ok content ∧
        items s = content_items content ∧
        selector_map s = content_selector_map content ∧
        trace (snd r)
        = trace σ0 ++ [Driver (dom_get_clickable_elements d);
                       Driver (driver_current_url d); Driver (driver_title d)]
  | Raise _ => current_state (snd r) = current_state σ
  end.
Proof.
  cbv zeta. unfold get_updated_state, bind, ret, assign_current_state.
  pose proof (keeps_snapshot__get_driver env σ) as Hkeep.
  destruct (_get_driver env σ) as [[d|e] σ0] eqn:Hd; cbn [fst snd] in *; [|done].
  rewrite perform_eq.
  destruct (snd (reply env (trace σ0) (dom_get_clickable_elements d)))
    as [content|e1] eqn:H1; cbn [fst snd]; [|done].
  rewrite perform_eq.
  match goal with
  | |- context [match ?x with _ => _ end] =>
      match x with snd (reply _ _ _) => destruct x as [u|e2] end
  end; cbn [fst snd]; [|done].
  rewrite perform_eq.
  match goal with
  | |- context [match ?x with _ => _ end] =>
      match x with snd (reply _ _ _) => destruct x as [t|e3] end
  end; cbn [fst snd]; [|done].
  split; [done|]. exists d, σ0, content.
  split; [done|]. split; [done|]. split; [done|]. split; [done|].
  cbn [trace set_current_state happen]. by rewrite <- !app_assoc.
Qed.

(** ** The stealth script *)

Lemma prepared_happen e dt σ : prepared σ → prepared (happen e dt σ).
Proof.
  intros H d Hd. cbn [trace happen]. apply elem_of_app. left. by apply H.
Qed.

Section Prepared.

Variable env : Env.

Lemma keeps_prepared_ret {A} (a : A) : keeps_prepared (ret a).
Proof. by intros σ. Qed.

Lemma keeps_prepared_raise {A} (e : Exn) : keeps_prepared (@raise A e).
Proof. by intros σ. Qed.

Lemma keeps_prepared_bind {A B} (m : M A) (k : A → M B) :
  keeps_prepared m → (∀ a, keeps_prepared (k a)) → keeps_prepared (bind m k).
Proof.
  intros Hm Hk σ Hσ. unfold bind. specialize (Hm σ Hσ).
  destruct (m σ) as [[a|e] σ']; [by apply Hk | done].
Qed.

Lemma keeps_prepared_try_except {A} (m : M A) (h : Exn → M A) :
  keeps_prepared m → (∀ e, keeps_prepared (h e)) →
  keeps_prepared (try_except m h).
Proof.
  intros Hm Hh σ Hσ. unfold try_except. specialize (Hm σ Hσ).
  destruct (m σ) as [[a|e] σ']; [done | by apply Hh].
Qed.

Lemma keeps_prepared_or_else (m : M Flow) (k : M unit) :
  keeps_prepared m → keeps_prepared k → keeps_prepared (or_else m k).
Proof.
  intros Hm Hk. apply keeps_prepared_bind; [done|].
  intros []; [apply keeps_prepared_ret | done].
Qed.

Lemma keeps_prepared_if {A} (b : bool) (m1 m2 : M A) :
  keeps_prepared m1 → keeps_prepared m2 →
  keeps_prepared (if b then m1 else m2).
Proof. by destruct b. Qed.

Lemma keeps_prepared_perform c : keeps_prepared (perform env c).
Proof. intros σ Hσ. rewrite perform_eq. by apply prepared_happen. Qed.

Lemma keeps_prepared_time_time : keeps_prepared (time_time env).
Proof. by intros σ. Qed.

Lemma keeps_prepared_time_sleep secs : keeps_prepared (time_sleep env secs).
Proof.
  intros σ Hσ. unfold time_sleep.
  destruct (sleep_error secs); [done | by apply prepared_happen].
Qed.

Lemma keeps_prepared_print line : keeps_prepared (print env line).
Proof. intros σ Hσ. by apply prepared_happen. Qed.

Lemma keeps_prepared_assign_current_state s :
  keeps_prepared (assign_current_state s).
Proof. by intros σ. Qed.

Lemma keeps_prepared_quit d : keeps_prepared (quit env d).
Proof.
  intros σ Hσ. unfold quit. rewrite perform_eq.
  destruct (snd (reply env (trace σ) _)); by apply prepared_happen.
Qed.

(** [init] stores the new driver only after the script was injected. *)
Lemma keeps_prepared_init : keeps_prepared (init env).
Proof.
  intros σ Hσ. pose proof (init_cases env σ) as H. cbv zeta in H.
  destruct (snd (reply env (trace σ) (webdriver_Chrome (headless σ)))) as [[]|e1].
  - match type of H with
    | context [match ?x with _ => _ end] =>
        match x with snd (reply _ _ _) => destruct x as [[]|e2] end
    end; rewrite H; cbn [snd].
    + intros d [= <-]. cbn [trace set_driver happen set_launched set_live].
      apply elem_of_app. right. by apply list_elem_of_singleton.
    + by apply prepared_happen, prepared_happen.
  - rewrite H. by apply prepared_happen.
Qed.

Lemma keeps_prepared__get_driver : keeps_prepared (_get_driver env).
Proof.
  intros σ Hσ. unfold _get_driver, bind, self_driver.
  destruct (driver σ) as [d|] eqn:Hd; [done|].
  pose proof (keeps_prepared_init σ Hσ) as Hinit.
  pose proof (init_cases env σ) as H. cbv zeta in H.
  destruct (snd (reply env (trace σ) (webdriver_Chrome (headless σ)))) as [[]|e1];
    [|by rewrite H in *].
  match type of H with
  | context [match ?x with _ => _ end] =>
      match x with snd (reply _ _ _) => destruct x as [[]|e2] end
  end; rewrite H in *; done.
Qed.

Lemma keeps_prepared_close : keeps_prepared (close env).
Proof.
  intros σ Hσ. unfold close, bind.
  pose proof (keeps_prepared__get_driver σ Hσ) as H1.
  destruct (_get_driver env σ) as [[d|e] σ1]; [|done]. cbn [snd] in H1.
  pose proof (keeps_prepared_quit d σ1 H1) as H2.
  destruct (quit env d σ1) as [[[]|e] σ2]; [|done].
  by intros d' [=].
Qed.

Ltac prepared_step :=
  first
    [ apply keeps_prepared_ret | apply keeps_prepared_raise
    | lazymatch goal with
      | |- keeps_prepared (perform _ ?c) => exact (keeps_prepared_perform c)
      end
    | apply keeps_prepared_time_time | apply keeps_prepared_time_sleep
    | apply keeps_prepared_print | apply keeps_prepared_assign_current_state
    | apply keeps_prepared__get_driver
    | apply keeps_prepared_or_else | apply keeps_prepared_try_except
    | apply keeps_prepared_bind | apply keeps_prepared_if
    | lazymatch goal with |- ∀ _, _ => intro end ].

Lemma keeps_prepared_wait_for_page_load : keeps_prepared (wait_for_page_load env).
Proof.
  unfold wait_for_page_load, poll_ready_state. repeat prepared_step.
Qed.

Lemma keeps_prepared_run_op op : keeps_prepared (run_op env op).
Proof.
  pose proof keeps_prepared_wait_for_page_load.
  pose proof keeps_prepared_init.
  destruct op; cbn [run_op].
  - unfold void. repeat (done || prepared_step).
  - unfold go_to_url. repeat (done || prepared_step).
  - unfold search_google. repeat (done || prepared_step).
  - unfold go_back. repeat (done || prepared_step).
  - unfold refresh. repeat (done || prepared_step).
  - unfold void, get_updated_state. repeat (done || prepared_step).
  - unfold click_element_by_index, time_execution_sync.
    destruct (selector_map state !! index); [|apply keeps_prepared_raise].
    unfold _click_element_by_xpath, _webdriver_wait, until_element_to_be_clickable.
    repeat (done || prepared_step).
  - unfold input_text_by_index.
    destruct (selector_map state !! index); [|apply keeps_prepared_raise].
    unfold _input_text_by_xpath, _webdriver_wait, until_element_to_be_clickable.
    repeat (done || prepared_step).
  - apply keeps_prepared_close.
Qed.

End Prepared.

(** X9.  The service never holds a browser into which the stealth script
    was not injected.  After any sequence of operations on a new service,
    direct calls of [init()] included and whichever of them raised, the
    driver the service holds, if any, has been sent the script. *)
Theorem held_driver_has_stealth_script
    (env : Env) (ops : list Op) (headless_ : bool) (t : Q) (d : Conn) :
  driver (run_ops env ops (__init__ headless_ t)) = Some d →
  driver_execute_cdp_cmd d
  ∈ driver_calls (trace (run_ops env ops (__init__ headless_ t))).
Proof.
  assert (∀ σ, prepared σ → prepared (run_ops env ops σ)) as Hrun.
  { induction ops as [|op ops IH]; intros σ Hσ; [done|].
    cbn [run_ops]. by apply IH, keeps_prepared_run_op. }
  intros Hd.
  assert (prepared (__init__ headless_ t)) as H0 by (by intros d' [=]).
  specialize (Hrun _ H0 d Hd).
  unfold driver_calls. apply list_elem_of_omap.
  by exists (Driver (driver_execute_cdp_cmd d)).
Qed.

Lemma held_driver_has_stealth_script_witness :
  driver_execute_cdp_cmd 1%nat
  ∈ driver_calls
      (trace (run_ops Worlds.calm
                [op_go_to_url "http://localhost/"; op_close; op_refresh]
                (__init__ false 0))).
Proof.
  apply (held_driver_has_stealth_script Worlds.calm
           [op_go_to_url "http://localhost/"; op_close; op_refresh] false 0 1%nat).
  vm_compute; reflexivity.
Defined.

(** ** The identifier of the second click stage *)

Lemma append_assoc (a b c : string) : (a +:+ b) +:+ c = a +:+ (b +:+ c).
Proof.
  induction a as [|x a IH]; [done|].
  change ((String x a +:+ b) +:+ c) with (String x ((a +:+ b) +:+ c)).
  by rewrite IH.
Qed.

Lemma after_last_id_append (pre rest : string) :
  Spec.after_last_id rest = None →
  Spec.after_last_id (pre +:+ "id=" +:+ rest) = Some rest.
Proof.
  intros Hrest. induction pre as [|a pre IH].
  - change ("" +:+ "id=" +:+ rest) with (String "i" (String "d" (String "=" rest))).
    cbn [Spec.after_last_id]. rewrite Hrest.
    by rewrite (after_id_other "=" rest), (after_id_other "d" (String "=" rest)).
  - change (String a pre +:+ "id=" +:+ rest) with (String a (pre +:+ "id=" +:+ rest)).
    cbn [Spec.after_last_id]. by rewrite IH.
Qed.

Lemma up_to_bracket_append (v s : string) :
  PyStr.contains "]" v = false →
  Spec.up_to_bracket (v +:+ s) = v +:+ Spec.up_to_bracket s.
Proof.
  induction v as [|a v IH]; [done|].
  cbn [PyStr.contains]. rewrite prefix_bracket.
  intros [Ha Hv]%orb_false_elim.
  change (String a v +:+ s) with (String a (v +:+ s)).
  cbn [Spec.up_to_bracket]. rewrite Ha, (IH Hv). reflexivity.
Qed.

(** X10.  For a locator that ends with the usual test of the attribute,
    [[@id='v']], the text the second click stage looks up with [By.ID] is
    ['v'], quotation marks included, whatever comes before the test: the
    method takes what lies between [id=] and the bracket as it stands. *)
Theorem id_value_keeps_quotation_marks (pre v : string) :
  PyStr.contains "]" v = false →
  PyStr.contains "id=" ("'" +:+ v +:+ "']") = false →
  let xpath := pre +:+ "[@id='" +:+ v +:+ "']" in
  PyStr.contains "id=" xpath = true ∧
  PyStr.item_first (PyStr.split "]" (PyStr.item_last (PyStr.split "id=" xpath)))
  = "'" +:+ v +:+ "'".
Proof.
  intros Hv Hrest. cbv zeta.
  assert (Spec.after_last_id ("'" +:+ v +:+ "']") = None) as Hnone.
  { rewrite contains_id in Hrest. apply bool_decide_eq_false_1 in Hrest.
    destruct (Spec.after_last_id _); [|done]. exfalso. apply Hrest. eauto. }
  assert (Spec.fragment_text (pre +:+ "[@id='" +:+ v +:+ "']")
          = Some ("'" +:+ v +:+ "'")) as Hfrag.
  { unfold Spec.fragment_text.
    change (pre +:+ "[@id='" +:+ v +:+ "']")
      with (pre +:+ ("[@" +:+ ("id=" +:+ ("'" +:+ v +:+ "']")))).
    rewrite <- (append_assoc pre "[@").
    rewrite (after_last_id_append (pre +:+ "[@") _ Hnone). cbn [option_map].
    f_equal.
    change ("'" +:+ v +:+ "']") with (String "'" (v +:+ "']")).
    cbn [Spec.up_to_bracket Ascii.eqb Bool.eqb].
    change ("'" +:+ v +:+ "'") with (String "'" (v +:+ "'")). f_equal.
    by rewrite (up_to_bracket_append v "']" Hv). }
  pose proof (id_value_fragment_text (pre +:+ "[@id='" +:+ v +:+ "']")) as H.
  by rewrite Hfrag in H.
Qed.

Lemma id_value_keeps_quotation_marks_witness :
  PyStr.contains "id=" "//form/button[@id='submit']" = true ∧
  PyStr.item_first
    (PyStr.split "]" (PyStr.item_last (PyStr.split "id=" "//form/button[@id='submit']")))
  = "'submit'".
Proof.
  apply (id_value_keeps_quotation_marks "//form/button" "submit").
  - vm_compute; reflexivity.
  - vm_compute; reflexivity.
Defined.

(** ** Counting the clicks *)













